(** * Batch background removal page: model and verification

    A shallow embedding of [src/app/page.tsx] (the [Home] component): the
    item records, the state updates of [addFiles], [processSequentially],
    [clearAll], the cleanup effect and the ZIP export, followed by the
    properties of the batch pipeline.

    Conventions of the embedding.
    - JavaScript numbers ([JsNum]) are exact rationals extended with the
      two infinities and NaN.  The special values follow IEEE 754; the
      rounding error of binary64 inside [value / total * 100] is not
      modelled, and neither is the sign of zero.
    - Strings are [string]; [toLowerCase] folds the ASCII letters.
    - [crypto.randomUUID] and [URL.createObjectURL] are fresh-name
      supplies: the n-th call returns [n].
    - React state is passed explicitly ([Page]); a render is a [commit]. *)

From Stdlib Require Import Ascii String QArith Qround.
From stdpp Require Import base numbers strings list.

Local Open Scope string_scope.

(** ** JavaScript numbers *)

Inductive JsNum :=
| Finite (q : Q)
| PosInf
| NegInf
| NaN.

Definition js_zero : JsNum := Finite 0.
Definition js_hundred : JsNum := Finite 100.

(** [x / y].  Dividing by zero raises nothing in JavaScript: it yields an
    infinity, or NaN for [0 / 0]. *)
Definition js_div (x y : JsNum) : JsNum :=
  match x, y with
  | NaN, _ | _, NaN => NaN
  | Finite a, Finite b =>
      if Qeq_bool b 0
      then (if Qeq_bool a 0 then NaN else if Qle_bool 0 a then PosInf else NegInf)
      else Finite (a / b)
  | Finite _, PosInf | Finite _, NegInf => Finite 0
  | PosInf, Finite b => if Qle_bool 0 b then PosInf else NegInf
  | NegInf, Finite b => if Qle_bool 0 b then NegInf else PosInf
  | _, _ => NaN
  end.

(** [x * y]. *)
Definition js_mul (x y : JsNum) : JsNum :=
  match x, y with
  | NaN, _ | _, NaN => NaN
  | Finite a, Finite b => Finite (a * b)
  | Finite a, PosInf | PosInf, Finite a =>
      if Qeq_bool a 0 then NaN else if Qle_bool 0 a then PosInf else NegInf
  | Finite a, NegInf | NegInf, Finite a =>
      if Qeq_bool a 0 then NaN else if Qle_bool 0 a then NegInf else PosInf
  | PosInf, PosInf | NegInf, NegInf => PosInf
  | PosInf, NegInf | NegInf, PosInf => NegInf
  end.

(** [x > y]: false as soon as one side is NaN. *)
Definition js_gt (x y : JsNum) : bool :=
  match x, y with
  | NaN, _ | _, NaN => false
  | Finite a, Finite b => negb (Qle_bool a b)
  | PosInf, Finite _ | PosInf, NegInf | Finite _, NegInf => true
  | _, _ => false
  end.

(** [Math.round]: the nearest integer, ties towards plus infinity. *)
Definition Math_round (x : JsNum) : JsNum :=
  match x with
  | Finite q => Finite (inject_Z (Qfloor (q + (1 # 2))%Q))
  | other => other
  end.

(** The body of the progress callback, line 64:
    [total > 0 ? Math.round((value / total) * 100) : 0]. *)
Definition percent (value total : JsNum) : JsNum :=
  if js_gt total js_zero
  then Math_round (js_mul (js_div value total) js_hundred)
  else js_zero.

(** A number is a percentage when it is finite and within [0, 100]. *)
Definition isPercentage (x : JsNum) : Prop :=
  match x with
  | Finite q => (0 <= q /\ q <= 100)%Q
  | _ => False
  end.

Definition isPercentageb (x : JsNum) : bool :=
  match x with
  | Finite q => Qle_bool 0 q && Qle_bool q 100
  | _ => false
  end.

(** ** JavaScript strings *)

Definition lowerChar (c : ascii) : ascii :=
  let n := nat_of_ascii c in
  if (65 <=? n)%nat && (n <=? 90)%nat then ascii_of_nat (n + 32) else c.

Fixpoint toLowerCase (s : string) : string :=
  match s with
  | EmptyString => EmptyString
  | String c s' => String (lowerChar c) (toLowerCase s')
  end.

(** [s.endsWith(t)]: the last [t.length] characters of [s] are [t]. *)
Definition endsWith (s t : string) : bool :=
  (String.length t <=? String.length s)%nat
  && String.eqb (substring (String.length s - String.length t) (String.length t) s) t.

(** [name.replace(/\.[^.]+$/, "")], lines 115 and 309.  [extensionHere s]
    is the regular expression anchored at the first character of [s]: a
    dot, then one or more characters other than a dot, then the end of the
    input.  [replace] rewrites the leftmost match; as the match runs to the
    end of the input, what remains is the text before it. *)
Fixpoint dotless (s : string) : bool :=
  match s with
  | EmptyString => true
  | String c s' => negb (Ascii.eqb c ".") && dotless s'
  end.

Definition extensionHere (s : string) : bool :=
  match s with
  | String c rest =>
      Ascii.eqb c "." && negb (String.eqb rest "") && dotless rest
  | EmptyString => false
  end.

Fixpoint getBaseName (name : string) : string :=
  if extensionHere name then EmptyString
  else match name with
       | EmptyString => EmptyString
       | String c rest => String c (getBaseName rest)
       end.

(** ** Data model *)

Definition Bytes := list Byte.byte.
Definition Url := nat.
Definition Id := nat.

(** A [File] of the browser: its name, its content type and its bytes
    (what [arrayBuffer()] resolves to). *)
Record File := mkFile {
  name : string;
  type : string;
  fileBytes : Bytes
}.

Inductive Status := pending | processing | done | error.

(** [type ImageItem], lines 7-17.  The optional fields are options. *)
Record ImageItem := mkItem {
  id : Id;
  file : File;
  srcUrl : Url;
  resultUrl : option Url;
  resultBlob : option Bytes;
  progress : JsNum;
  status : Status;
  errorMessage : option string;
  keepBackground : option bool
}.

(** [!!item.keepBackground] *)
Definition keepsBackground (i : ImageItem) : bool :=
  match keepBackground i with
  | Some b => b
  | None => false
  end.

(** The object spreads of the state updates. *)

(** [{ ...i, status: "processing", progress: 0 }], line 57 *)
Definition spreadProcessing (i : ImageItem) : ImageItem :=
  {| id := id i; file := file i; srcUrl := srcUrl i;
     resultUrl := resultUrl i; resultBlob := resultBlob i;
     progress := js_zero; status := processing;
     errorMessage := errorMessage i; keepBackground := keepBackground i |}.

(** [{ ...i, progress: percent }], line 67 *)
Definition spreadProgress (p : JsNum) (i : ImageItem) : ImageItem :=
  {| id := id i; file := file i; srcUrl := srcUrl i;
     resultUrl := resultUrl i; resultBlob := resultBlob i;
     progress := p; status := status i;
     errorMessage := errorMessage i; keepBackground := keepBackground i |}.

(** [{ ...i, resultUrl, resultBlob, progress: 100, status: "done" }], line 76 *)
Definition spreadDone (u : Url) (b : Bytes) (i : ImageItem) : ImageItem :=
  {| id := id i; file := file i; srcUrl := srcUrl i;
     resultUrl := Some u; resultBlob := Some b;
     progress := js_hundred; status := done;
     errorMessage := errorMessage i; keepBackground := keepBackground i |}.

(** [{ ...i, status: "error", errorMessage: message }], line 86 *)
Definition spreadError (message : string) (i : ImageItem) : ImageItem :=
  {| id := id i; file := file i; srcUrl := srcUrl i;
     resultUrl := resultUrl i; resultBlob := resultBlob i;
     progress := progress i; status := error;
     errorMessage := Some message; keepBackground := keepBackground i |}.

(** [{ ...i, keepBackground: e.target.checked }], line 275 *)
Definition spreadKeep (checked : bool) (i : ImageItem) : ImageItem :=
  {| id := id i; file := file i; srcUrl := srcUrl i;
     resultUrl := resultUrl i; resultBlob := resultBlob i;
     progress := progress i; status := status i;
     errorMessage := errorMessage i; keepBackground := Some checked |}.

(** [prev.map((i) => (i.id === k ? f(i) : i))]: the shape of every update
    of one item. *)
Definition mapItem (k : Id) (f : ImageItem -> ImageItem)
    (prev : list ImageItem) : list ImageItem :=
  (fun i => if (id i =? k)%nat then f i else i) <$> prev.

(** ** The page: React state and the two traces the properties speak of *)

Inductive UrlCall :=
| createObjectURL (u : Url)
| revokeObjectURL (u : Url).

(** [items] and [isProcessing] are the state cells (what a functional
    updater receives as [prev]).  [shown] is the [items] array of the last
    committed render, the one the closures of that render hold; [stale]
    says that [setItems] ran since.  [urlCalls] and [transformCalls] record
    the calls to the browser and to the transform, oldest first. *)
Record Page := mkPage {
  items : list ImageItem;
  isProcessing : bool;
  shown : list ImageItem;
  stale : bool;
  urlCalls : list UrlCall;
  urlCount : nat;
  uuidCount : nat;
  transformCalls : list File
}.

Definition setItems (f : list ImageItem -> list ImageItem) (w : Page) : Page :=
  {| items := f (items w); isProcessing := isProcessing w;
     shown := shown w; stale := true;
     urlCalls := urlCalls w; urlCount := urlCount w;
     uuidCount := uuidCount w; transformCalls := transformCalls w |}.

Definition setIsProcessing (b : bool) (w : Page) : Page :=
  {| items := items w; isProcessing := b;
     shown := shown w; stale := stale w;
     urlCalls := urlCalls w; urlCount := urlCount w;
     uuidCount := uuidCount w; transformCalls := transformCalls w |}.

(** [crypto.randomUUID()] *)
Definition randomUUID (w : Page) : Id * Page :=
  (uuidCount w,
   {| items := items w; isProcessing := isProcessing w;
      shown := shown w; stale := stale w;
      urlCalls := urlCalls w; urlCount := urlCount w;
      uuidCount := S (uuidCount w); transformCalls := transformCalls w |}).

(** [URL.createObjectURL(blob)]: a fresh token, recorded. *)
Definition URL_createObjectURL (w : Page) : Url * Page :=
  (urlCount w,
   {| items := items w; isProcessing := isProcessing w;
      shown := shown w; stale := stale w;
      urlCalls := (urlCalls w ++ [createObjectURL (urlCount w)])%list;
      urlCount := S (urlCount w);
      uuidCount := uuidCount w; transformCalls := transformCalls w |}).

(** [URL.revokeObjectURL(u)], recorded. *)
Definition URL_revokeObjectURL (u : Url) (w : Page) : Page :=
  {| items := items w; isProcessing := isProcessing w;
     shown := shown w; stale := stale w;
     urlCalls := (urlCalls w ++ [revokeObjectURL u])%list;
     urlCount := urlCount w;
     uuidCount := uuidCount w; transformCalls := transformCalls w |}.

(** The loop shared by [clearAll] (lines 136-139) and by the cleanup of
    the effect of lines 143-150. *)
Fixpoint revokeAll (l : list ImageItem) (w : Page) : Page :=
  match l with
  | [] => w
  | i :: rest =>
      let w := URL_revokeObjectURL (srcUrl i) w in
      let w := match resultUrl i with
               | Some u => URL_revokeObjectURL u w
               | None => w
               end in
      revokeAll rest w
  end.

(** A render is committed.  The effect of lines 143-150 depends on
    [items]: when the array changed, the cleanup the previous render
    registered runs, over the [items] that render held. *)
Definition commit (w : Page) : Page :=
  if stale w then
    let w' := revokeAll (shown w) w in
    {| items := items w'; isProcessing := isProcessing w';
       shown := items w'; stale := false;
       urlCalls := urlCalls w'; urlCount := urlCount w';
       uuidCount := uuidCount w'; transformCalls := transformCalls w' |}
  else w.

(** ** [addFiles], lines 26-47 *)

(** The predicate given to [filter], lines 27-36. *)
Definition accepts (f : File) : bool :=
  let type_ := toLowerCase (type f) in
  let name_ := toLowerCase (name f) in
  String.eqb type_ "image/jpeg"
  || String.eqb type_ "image/jpg"
  || endsWith name_ ".jpg"
  || endsWith name_ ".jpeg".

(** One element of [list.map((file) => ({ ... }))], lines 38-45. *)
Definition newItem (uuid : Id) (f : File) (url : Url) : ImageItem :=
  {| id := uuid; file := f; srcUrl := url;
     resultUrl := None; resultBlob := None;
     progress := js_zero; status := pending;
     errorMessage := None; keepBackground := Some false |}.

Fixpoint newItems (accepted : list File) (w : Page) : list ImageItem * Page :=
  match accepted with
  | [] => ([], w)
  | f :: rest =>
      let (uuid, w) := randomUUID w in
      let (url, w) := URL_createObjectURL w in
      let (more, w) := newItems rest w in
      (newItem uuid f url :: more, w)
  end.

Definition addFiles (files : list File) (w : Page) : Page :=
  match List.filter accepts files with
  | [] => w
  | accepted =>
      let (new, w) := newItems accepted w in
      setItems (fun prev => (prev ++ new)%list) w
  end.

(** ** [clearAll], lines 135-141 *)

Definition clearAll (w : Page) : Page :=
  setItems (fun _ => []) (revokeAll (shown w) w).

(** ** What the user can do, each followed by the render it causes *)

Inductive UserEvent :=
| SelectFiles (files : list File)        (* onDrop, onSelect *)
| ClickClear                             (* the Clear button *)
| CheckKeep (k : Id) (checked : bool).   (* the Keep background box *)

Definition handle (e : UserEvent) (w : Page) : Page :=
  commit
    match e with
    | SelectFiles files => addFiles files w
    | ClickClear => clearAll w
    | CheckKeep k checked => setItems (mapItem k (spreadKeep checked)) w
    end.

(** ** The transform, as seen from the page

    [removeBackground] is a black box.  One call is described by what
    happens while the page awaits it, in order (progress callbacks, and
    whatever the user does meanwhile), and by how the promise settles. *)

Inductive Thrown :=
| ErrorObject (message : string)   (* err instanceof Error *)
| OtherValue.

Inductive Outcome :=
| Resolves (blob : Bytes)
| Rejects (err : Thrown).

Inductive Happening :=
| Progress (stage : string) (value total : JsNum)
| User (e : UserEvent).

Record Transform := mkTransform {
  during : list Happening;
  outcome : Outcome
}.

(** Lines 81-82. *)
Definition messageOf (err : Thrown) : string :=
  match err with
  | ErrorObject message => message
  | OtherValue => "Failed to remove background"
  end.

(** The progress callback, lines 63-70. *)
Definition onProgress (k : Id) (value total : JsNum) (w : Page) : Page :=
  let percent_ := percent value total in
  setItems (mapItem k (spreadProgress percent_)) w.

(** ** [processSequentially], lines 49-95 *)

Section Scheduler.

Variable removeBackground : File -> Transform.

Definition logTransform (f : File) (w : Page) : Page :=
  {| items := items w; isProcessing := isProcessing w;
     shown := shown w; stale := stale w;
     urlCalls := urlCalls w; urlCount := urlCount w;
     uuidCount := uuidCount w;
     transformCalls := (transformCalls w ++ [f])%list |}.

(** Line 54. *)
Definition skips (item : ImageItem) : bool :=
  match status item with
  | done | processing => true
  | _ => false
  end.

(** Lines 55-61, up to the point where the function is suspended on the
    promise of [removeBackground]: the page renders. *)
Definition beginItem (item : ImageItem) (w : Page) : Page :=
  let w := setItems (mapItem (id item) spreadProcessing) w in
  let w := logTransform (file item) w in
  commit w.

(** While suspended: each happening is a task of its own, followed by
    the render it causes. *)
Definition happen (item : ImageItem) (h : Happening) (w : Page) : Page :=
  match h with
  | Progress _ value total => commit (onProgress (id item) value total w)
  | User e => handle e w
  end.

(** Lines 72-90: the promise settled and the function resumes.  It runs
    on to the next suspension without a render in between: React batches
    this update with those of the next iteration (or with
    [setIsProcessing(false)] when the loop is over). *)
Definition settleItem (item : ImageItem) (o : Outcome) (w : Page) : Page :=
  match o with
  | Resolves resultBlob_ =>
      let (resultUrl_, w) := URL_createObjectURL w in
      setItems (mapItem (id item) (spreadDone resultUrl_ resultBlob_)) w
  | Rejects err =>
      setItems (mapItem (id item) (spreadError (messageOf err))) w
  end.

Definition processItem (item : ImageItem) (w : Page) : Page :=
  let t := removeBackground (file item) in
  let w := beginItem item w in
  let w := fold_left (fun w h => happen item h w) (during t) w in
  settleItem item (outcome t) w.

(** [for (const item of items)], over the array the closure holds. *)
Fixpoint forEachItem (snapshot : list ImageItem) (w : Page) : Page :=
  match snapshot with
  | [] => w
  | item :: rest =>
      if skips item then forEachItem rest w
      else forEachItem rest (processItem item w)
  end.

(** The closure that runs is the one of the last render: its [items] is
    [shown], and it iterates that array, not the state cell.  The effect
    of lines 97-102 and the Process again button are its callers. *)
Definition processSequentially (w : Page) : Page :=
  if isProcessing w then w
  else
    let w := setIsProcessing true w in
    let w := forEachItem (shown w) w in
    commit (setIsProcessing false w).

End Scheduler.

(** ** The Download ZIP handler, lines 300-315

    The archive is the sequence of [zip.file(path, data)] calls, in order;
    the container itself keeps the last write of a path.  [arrayBuffer()]
    is taken to resolve (the [catch] of line 312 skips an item whose bytes
    cannot be read). *)

Definition ZipEntry : Type := string * Bytes.

Definition zip_file (path : string) (data : Bytes) (zip : list ZipEntry)
    : list ZipEntry :=
  (zip ++ [(path, data)])%list.

Fixpoint zipItems (l : list ImageItem) (zip : list ZipEntry) : list ZipEntry :=
  match l with
  | [] => zip
  | item :: rest =>
      let zip :=
        if keepsBackground item then
          zip_file (name (file item)) (fileBytes (file item)) zip
        else
          match resultBlob item with
          | Some buf =>
              let base := getBaseName (name (file item)) in
              zip_file (base ++ ".png") buf zip
          | None => zip
          end in
      zipItems rest zip
  end.

Definition downloadZip (l : list ImageItem) : list ZipEntry := zipItems l [].

(** ** The export rule, as the specification words it (section 4.5) *)

(** The text before and after the last dot of [s], when [s] has a dot. *)
Fixpoint splitLastDot (s : string) : option (string * string) :=
  match s with
  | EmptyString => None
  | String c rest =>
      match splitLastDot rest with
      | Some (stem, ext) => Some (String c stem, ext)
      | None => if Ascii.eqb c "." then Some (EmptyString, rest) else None
      end
  end.

(** "strips the last extension from [sourceName]": an extension is a dot
    followed by at least one character. *)
Definition stripLastExtension (sourceName : string) : string :=
  match splitLastDot sourceName with
  | Some (stem, ext) => if String.eqb ext "" then sourceName else stem
  | None => sourceName
  end.

Definition deriveOutputName (sourceName : string) : string :=
  stripLastExtension sourceName ++ ".png".

Definition exportEntry (i : ImageItem) : option ZipEntry :=
  if keepsBackground i then Some (name (file i), fileBytes (file i))
  else match resultBlob i with
       | Some resultBytes => Some (deriveOutputName (name (file i)), resultBytes)
       | None => None
       end.

Definition buildArchive (collection : list ImageItem) : list ZipEntry :=
  omap exportEntry collection.

(** ** Vocabulary of the properties *)

(** An item the run is done with. *)
Definition settled (i : ImageItem) : Prop :=
  status i = done \/ status i = error.

(** An item as [addFiles] creates it. *)
Definition isNew (i : ImageItem) : Prop :=
  status i = pending /\ progress i = js_zero /\ keepBackground i = Some false
  /\ resultUrl i = None /\ resultBlob i = None /\ errorMessage i = None.

(** The page between two runs: no run is in flight, the last render shows
    the current [items], and no item is left in [processing]. *)
Record AtRest (w : Page) : Prop := mkAtRest {
  rest_idle : isProcessing w = false;
  rest_fresh : stale w = false;
  rest_shown : shown w = items w;
  rest_none_processing : Forall (fun i => status i <> processing) (items w)
}.

Definition selectsFiles (h : Happening) : bool :=
  match h with
  | User (SelectFiles _) => true
  | _ => false
  end.

Definition clears (h : Happening) : bool :=
  match h with
  | User ClickClear => true
  | _ => false
  end.

(** The items of a snapshot the loop does not skip. *)
Definition needsWork (item : ImageItem) : bool := negb (skips item).

(** No call of the transform sees a happening of the kind [p]. *)
Definition never (p : Happening -> bool) (removeBackground : File -> Transform)
    : Prop :=
  forall f, Forall (fun h => p h = false) (during (removeBackground f)).

(** Two versions of an item that differ at most in [progress] and
    [keepBackground]. *)
Definition sameCore (i i' : ImageItem) : Prop :=
  id i' = id i /\ file i' = file i /\ srcUrl i' = srcUrl i
  /\ resultUrl i' = resultUrl i /\ resultBlob i' = resultBlob i
  /\ status i' = status i /\ errorMessage i' = errorMessage i.

(** The calls of [createObjectURL] and of [revokeObjectURL] in a trace. *)
Definition acquired (calls : list UrlCall) : list Url :=
  omap (fun c => match c with createObjectURL u => Some u | _ => None end) calls.

Definition released (calls : list UrlCall) : list Url :=
  omap (fun c => match c with revokeObjectURL u => Some u | _ => None end) calls.

Definition countUrl (u : Url) (l : list Url) : nat :=
  List.length (List.filter (Nat.eqb u) l).

(** The spread [settleItem] applies to the settled item. *)
Definition settleSpread (o : Outcome) (u : Url) : ImageItem -> ImageItem :=
  match o with
  | Resolves b => spreadDone u b
  | Rejects err => spreadError (messageOf err)
  end.


(** A page whose [shown] may lag behind [items] only while [stale]. *)
Definition coherent (w : Page) : Prop := stale w = false -> shown w = items w.

(** ** The rest of the component *)

(** [hasResults], line 24. *)
Definition hasResults (l : list ImageItem) : bool :=
  existsb (fun i => match resultUrl i with Some _ => true | None => false end) l.

(** The effect of lines 97-102, which runs after a render whose [items]
    changed: its condition, read in that render, and its body. *)
Definition pendingEffectFires (w : Page) : bool :=
  existsb (fun i => match status i with pending => true | _ => false end)
    (shown w)
  && negb (isProcessing w).

Definition pendingEffect (removeBackground : File -> Transform) (w : Page)
    : Page :=
  if pendingEffectFires w then processSequentially removeBackground w else w.

(** The handler of a user action, before the render. *)
Definition act (e : UserEvent) (w : Page) : Page :=
  match e with
  | SelectFiles files => addFiles files w
  | ClickClear => clearAll w
  | CheckKeep k checked => setItems (mapItem k (spreadKeep checked)) w
  end.

(** A user action on the page, with what React does next: the render and,
    when [items] changed, the effect of lines 97-102, once (the render
    that closes the run it starts may fire the effect again). *)
Definition dispatch (removeBackground : File -> Transform) (e : UserEvent)
    (w : Page) : Page :=
  let w1 := act e w in
  if stale w1 then pendingEffect removeBackground (commit w1) else commit w1.

(** [downloadImage], lines 118-133: the link that is clicked, if any, with
    its [href] and its [download] attribute. *)
Record Link := mkLink {
  href : Url;
  download : string
}.

Definition downloadImage (item : ImageItem) (w : Page) : option Link * Page :=
  let useOriginal := keepsBackground item in
  if useOriginal then
    (Some {| href := srcUrl item; download := name (file item) |}, w)
  else
    match resultBlob item with
    | None => (None, w)
    | Some _ =>
        let (url, w) :=
          match resultUrl item with
          | Some u => (u, w)
          | None => URL_createObjectURL w
          end in
        (Some {| href := url;
                 download := getBaseName (name (file item)) ++ ".png" |}, w)
    end.

(** A click on the Download button of an item: what it leaves of the
    page. *)
Definition clickDownload (item : ImageItem) (w : Page) : Page :=
  (downloadImage item w).2.

(** Lines 316-324 of the Download ZIP handler: the archive is handed to
    the browser under a URL of its own, which is revoked at once. *)
Definition clickDownloadZip (w : Page) : Page :=
  let (url, w) := URL_createObjectURL w in
  URL_revokeObjectURL url w.

(** The conditions under which the buttons are disabled or shown. *)

(** Line 165: the Clear button. *)
Definition clearDisabled (w : Page) : bool :=
  (List.length (shown w) =? 0)%nat.

(** Line 202: the Process again button. *)
Definition processAgainDisabled (w : Page) : bool :=
  isProcessing w
  || forallb (fun i => match status i with done => true | _ => false end)
       (shown w).

(** Line 285: the Download button of an item. *)
Definition downloadDisabled (item : ImageItem) : bool :=
  negb (keepsBackground item
        || match resultUrl item with Some _ => true | None => false end).

(** Line 297: whether the Download ZIP button is rendered. *)
Definition zipShown (w : Page) : bool :=
  existsb (fun i => keepsBackground i
                    || match resultUrl i with Some _ => true | None => false end)
    (shown w).



(** ** Sample data, for the worked instances below *)

Definition catJpg : File :=
  mkFile "cat.jpg" "image/jpeg" [Byte.x63; Byte.x61; Byte.x74].

(** Accepted by its name only: the browser gave no content type. *)
Definition dogJpg : File :=
  mkFile "Dog.JPG" "" [Byte.x64; Byte.x6f; Byte.x67].

Definition owlJpeg : File :=
  mkFile "owl.jpeg" "image/jpeg" [Byte.x6f; Byte.x77; Byte.x6c].

Definition notesTxt : File :=
  mkFile "notes.txt" "text/plain" [Byte.x6e].

Definition cutout : Bytes := [Byte.x89; Byte.x50; Byte.x4e; Byte.x47].

(** The page as first rendered. *)
Definition mount : Page := mkPage [] false [] false [] 0 0 [].

(** The user selected one file, then three. *)
Definition onePending : Page := handle (SelectFiles [catJpg]) mount.
Definition threePending : Page :=
  handle (SelectFiles [catJpg; notesTxt; dogJpg; owlJpeg]) mount.

Definition catItem : ImageItem := newItem 0 catJpg 0.

(** A transform that always resolves, silently. *)
Definition succeeds (f : File) : Transform := mkTransform [] (Resolves cutout).

(** A transform that reports progress and rejects the dog. *)
Definition failsOnDog (f : File) : Transform :=
  if String.eqb (name f) "Dog.JPG"
  then mkTransform [Progress "fetch" (Finite 1) (Finite 4)]
         (Rejects (ErrorObject "model failed"))
  else mkTransform [Progress "compute" (Finite 3) (Finite 4)]
         (Resolves cutout).

(** While the cat is being processed, the user selects the dog. *)
Definition dogArrivesMeanwhile (f : File) : Transform :=
  if String.eqb (name f) "cat.jpg"
  then mkTransform [User (SelectFiles [dogJpg])] (Resolves cutout)
  else mkTransform [] (Resolves cutout).


(** While the cat is being processed, the user clicks Clear. *)
Definition clearedMeanwhile (f : File) : Transform :=
  mkTransform [User ClickClear] (Resolves cutout).

(** Select a file, let the run finish, clear. *)
Definition lifecycle : Page :=
  handle ClickClear (processSequentially succeeds onePending).

(** ** Vocabulary of the further properties *)

(** The pages the component can be in between two tasks: the first
    render, and what user actions, downloads and runs make of it.  A run
    is taken with any behaviour of the transform and of the user
    meanwhile; a download is of an item of the last render. *)
Inductive Reachable : Page -> Prop :=
| reachable_mount : Reachable mount
| reachable_handle e w : Reachable w -> Reachable (handle e w)
| reachable_run removeBackground w :
    Reachable w -> Reachable (processSequentially removeBackground w)
| reachable_download item w :
    Reachable w -> item ∈ shown w -> Reachable (clickDownload item w)
| reachable_zip w : Reachable w -> Reachable (clickDownloadZip w).

(** What an item looks like in each state, when no run is in flight. *)
Definition wellFormed (i : ImageItem) : Prop :=
  match status i with
  | pending =>
      resultUrl i = None /\ resultBlob i = None
      /\ errorMessage i = None /\ progress i = js_zero
  | processing => False
  | done =>
      is_Some (resultUrl i) /\ is_Some (resultBlob i)
      /\ progress i = js_hundred
  | error =>
      resultUrl i = None /\ resultBlob i = None
      /\ is_Some (errorMessage i)
  end.

Record Sound (w : Page) : Prop := mkSound {
  sound_rest : AtRest w;
  sound_ids : NoDup (id <$> items w);
  sound_fresh : Forall (fun i => (id i < uuidCount w)%nat) (items w);
  sound_items : Forall wellFormed (items w)
}.

(** While the item of identifier [k] is awaited: the items that carry [k]
    are processing and have no result, the others are well formed. *)
Definition awaiting (k : Id) (i : ImageItem) : Prop :=
  if (id i =? k)%nat
  then status i = processing /\ resultUrl i = None /\ resultBlob i = None
  else wellFormed i.

(** An item that is not done if it carries the identifier of a snapshot
    item that is still to be processed. *)
Definition untouched (rest : list ImageItem) (i : ImageItem) : Prop :=
  forall s, s ∈ rest -> skips s = false -> id s = id i -> status i <> done.

(** The invariant of the loop between two iterations, [rest] being what
    is left of the snapshot; and the invariant while the item of
    identifier [k] is awaited. *)
Definition between (rest : list ImageItem) (w : Page) : Prop :=
  NoDup (id <$> items w)
  /\ Forall (fun i => (id i < uuidCount w)%nat) (items w)
  /\ Forall (fun s => (id s < uuidCount w)%nat) rest
  /\ Forall (fun i => wellFormed i /\ untouched rest i) (items w).

Definition meanwhile (k : Id) (rest : list ImageItem) (w : Page) : Prop :=
  NoDup (id <$> items w)
  /\ Forall (fun i => (id i < uuidCount w)%nat) (items w)
  /\ (k < uuidCount w)%nat
  /\ Forall (fun s => (id s < uuidCount w)%nat) rest
  /\ Forall (fun i => awaiting k i /\ untouched rest i) (items w).

(** ** Vocabulary of the handle accounting *)

(** The object URLs an item holds, and those of a collection. *)
Definition handlesOf (i : ImageItem) : list Url :=
  srcUrl i :: match resultUrl i with Some u => [u] | None => [] end.

Definition handles (l : list ImageItem) : list Url := l ≫= handlesOf.

(** Every URL an item holds was created (it is below [n]) and is
    allowed by [A]. *)
Definition bounded (A : Url -> Prop) (n : nat) (i : ImageItem) : Prop :=
  Forall (fun u => (u < n)%nat /\ A u) (handlesOf i).

(** The accounting the page keeps: the URLs created are 0, 1, ... up to
    [urlCount]; the URLs held by the items, by the items of the last
    render and those revoked so far are among them and allowed by [A];
    and the URLs still to be created are allowed by [A]. *)
Record Good (A : Url -> Prop) (w : Page) : Prop := mkGood {
  good_items : Forall (bounded A (urlCount w)) (items w);
  good_shown : Forall (bounded A (urlCount w)) (shown w);
  good_released :
    Forall (fun u => (u < urlCount w)%nat /\ A u) (released (urlCalls w));
  good_acquired : acquired (urlCalls w) = seq 0 (urlCount w);
  good_fresh : forall u, (urlCount w <= u)%nat -> A u
}.

(** A URL that was created, that no item holds, neither in the state nor
    in the last render, and that was not revoked. *)
Definition orphan (u : Url) (w : Page) : Prop := Good (fun x => x <> u) w.

(** What the page can become: user actions, downloads and runs, in any
    number. *)
Inductive Later : Page -> Page -> Prop :=
| later_now w : Later w w
| later_handle e w w' : Later w w' -> Later w (handle e w')
| later_run removeBackground w w' :
    Later w w' -> Later w (processSequentially removeBackground w')
| later_download item w w' : Later w w' -> Later w (clickDownload item w')
| later_zip w w' : Later w w' -> Later w (clickDownloadZip w').

(** Two versions of an item with the same identity: identifier, file and
    source URL. *)
Definition sameSource (i i' : ImageItem) : Prop :=
  id i' = id i /\ file i' = file i /\ srcUrl i' = srcUrl i.

(** * Properties *)

(** ** Worked values *)

Example percent_half : percent (Finite 1) (Finite 2) = Finite 50.
Proof. reflexivity. Qed.

Example percent_rounds_half_up : percent (Finite 1) (Finite 8) = Finite 13.
Proof. reflexivity. Qed.

Example percent_of_NaN_total : percent (Finite 1) NaN = Finite 0.
Proof. reflexivity. Qed.

Example unguarded_division : js_div (Finite 1) js_zero = PosInf.
Proof. reflexivity. Qed.

Example accepts_by_name : accepts dogJpg = true.
Proof. reflexivity. Qed.

Example rejects_text : accepts notesTxt = false.
Proof. reflexivity. Qed.

Example getBaseName_inner_dots : getBaseName "a.b.c" = "a.b".
Proof. reflexivity. Qed.

Example getBaseName_trailing_dot : getBaseName "cat." = "cat.".
Proof. reflexivity. Qed.

Example getBaseName_no_dot : getBaseName "cat" = "cat".
Proof. reflexivity. Qed.

Example threePending_names :
  (fun i => (id i, name (file i), srcUrl i)) <$> items threePending
  = [(0%nat, "cat.jpg", 0%nat); (1%nat, "Dog.JPG", 1%nat);
     (2%nat, "owl.jpeg", 2%nat)].
Proof. reflexivity. Qed.

Example run_with_failure :
  (fun i => (status i, errorMessage i))
    <$> items (processSequentially failsOnDog threePending)
  = [(done, None); (error, Some "model failed"); (done, None)].
Proof. reflexivity. Qed.

Example export_after_failure :
  downloadZip (items (processSequentially failsOnDog threePending))
  = [("cat.png", cutout); ("owl.png", cutout)].
Proof. reflexivity. Qed.

(** ** Numbers *)




Lemma percent_not_positive (value total : JsNum) :
  js_gt total js_zero = false -> percent value total = js_zero.
Proof. intros H. unfold percent. rewrite H. reflexivity. Qed.

Lemma js_div_zero_not_finite (value : JsNum) (q : Q) :
  js_div value js_zero <> Finite q.
Proof.
  destruct value as [a| | |]; simpl; try discriminate.
  destruct (Qeq_bool a 0); [discriminate|].
  destruct (Qle_bool 0 a); discriminate.
Qed.

(** ** Strings *)

Lemma substring_all (s : string) : substring 0 (String.length s) s = s.
Proof. induction s as [|c s IH]; simpl; [reflexivity|]. now rewrite IH. Qed.

Lemma append_nil (t : string) : EmptyString ++ t = t.
Proof. reflexivity. Qed.

Lemma append_cons (c : ascii) (p t : string) :
  String c p ++ t = String c (p ++ t).
Proof. reflexivity. Qed.

Lemma substring_skip (p t : string) :
  substring (String.length p) (String.length t) (p ++ t) = t.
Proof.
  induction p as [|c p IH]; [apply substring_all|].
  rewrite append_cons. exact IH.
Qed.

Lemma length_append (p t : string) :
  String.length (p ++ t) = (String.length p + String.length t)%nat.
Proof.
  induction p as [|c p IH]; [reflexivity|].
  rewrite append_cons. simpl. now rewrite IH.
Qed.

Lemma substring_tail (n m : nat) (s : string) :
  (n + m)%nat = String.length s -> exists p, s = p ++ substring n m s.
Proof.
  revert s. induction n as [|n IH]; intros s H.
  - exists EmptyString. simpl in H. subst m. now rewrite substring_all.
  - destruct s as [|c s]; [discriminate|].
    destruct (IH s) as [p Hp]; [simpl in H; lia|].
    exists (String c p). rewrite append_cons. simpl. f_equal. exact Hp.
Qed.

(** [endsWith] is "ends in": some text, then the suffix. *)
Lemma endsWith_spec (s t : string) :
  endsWith s t = true <-> exists p, s = p ++ t.
Proof.
  unfold endsWith. rewrite andb_true_iff, Nat.leb_le, String.eqb_eq. split.
  - intros [Hle Hsub].
    destruct (substring_tail (String.length s - String.length t)
                (String.length t) s) as [p Hp]; [lia|].
    exists p. now rewrite Hsub in Hp.
  - intros [p ->]. rewrite length_append. split; [lia|].
    replace (String.length p + String.length t - String.length t)%nat
      with (String.length p) by lia.
    apply substring_skip.
Qed.

Lemma dotless_splitLastDot (s : string) :
  dotless s = true <-> splitLastDot s = None.
Proof.
  induction s as [|c s IH]; simpl; [tauto|].
  rewrite andb_true_iff, negb_true_iff, IH.
  destruct (splitLastDot s) as [[stem ext]|].
  - split; [intros [_ H]|]; discriminate.
  - destruct (Ascii.eqb c "."); [split; [intros [H _]|]; discriminate|].
    split; auto.
Qed.

Lemma getBaseName_dotless (s : string) : dotless s = true -> getBaseName s = s.
Proof.
  induction s as [|c s IH]; simpl; [reflexivity|].
  rewrite andb_true_iff, negb_true_iff. intros [-> Hs].
  simpl. now rewrite IH.
Qed.

(** The regular expression of the code strips the last extension, as the
    specification words it. *)
Lemma getBaseName_stripLastExtension (s : string) :
  getBaseName s = stripLastExtension s.
Proof.
  unfold stripLastExtension.
  induction s as [|c s IH]; [reflexivity|].
  cbn [getBaseName extensionHere splitLastDot].
  destruct (splitLastDot s) as [[stem ext]|] eqn:E.
  - assert (Hd : dotless s = false).
    { destruct (dotless s) eqn:D; [|reflexivity].
      apply dotless_splitLastDot in D. congruence. }
    rewrite Hd, !andb_false_r. rewrite IH.
    destruct (String.eqb ext ""); reflexivity.
  - assert (Hd : dotless s = true) by (now apply dotless_splitLastDot).
    rewrite Hd, andb_true_r.
    destruct (Ascii.eqb c ".") eqn:Ec; cbn [andb].
    + destruct (String.eqb s "") eqn:Es; cbn [negb].
      * apply String.eqb_eq in Es. subst s. reflexivity.
      * reflexivity.
    + now rewrite getBaseName_dotless.
Qed.

Lemma getBaseName_extension (stem ext : string) :
  ext <> "" -> dotless ext = true ->
  getBaseName (stem ++ String "." ext) = stem.
Proof.
  intros Hne Hd. induction stem as [|c stem IH].
  - rewrite append_nil.
    cbn [getBaseName extensionHere]. rewrite Hd.
    apply String.eqb_neq in Hne. now rewrite Hne.
  - rewrite append_cons.
    cbn [getBaseName extensionHere]. rewrite IH.
    assert (H : dotless (stem ++ String "." ext) = false).
    { clear. induction stem as [|d stem IH]; [reflexivity|].
      rewrite append_cons. simpl. rewrite IH. apply andb_false_r. }
    now rewrite H, andb_false_r.
Qed.

Lemma zipItems_app (l : list ImageItem) (zip : list ZipEntry) :
  zipItems l zip = (zip ++ buildArchive l)%list.
Proof.
  revert zip. induction l as [|i l IH]; intros zip; simpl.
  - now rewrite app_nil_r.
  - rewrite IH. unfold buildArchive. cbn [omap list_omap]. unfold exportEntry at 2, zip_file.
    destruct (keepsBackground i).
    + now rewrite <- app_assoc.
    + destruct (resultBlob i) as [b|].
      * rewrite <- app_assoc. unfold deriveOutputName.
        now rewrite getBaseName_stripLastExtension.
      * reflexivity.
Qed.

(** ** The page: what each primitive leaves alone *)

Lemma revokeAll_fields (l : list ImageItem) (w : Page) :
  items (revokeAll l w) = items w
  /\ isProcessing (revokeAll l w) = isProcessing w
  /\ shown (revokeAll l w) = shown w
  /\ stale (revokeAll l w) = stale w
  /\ transformCalls (revokeAll l w) = transformCalls w
  /\ uuidCount (revokeAll l w) = uuidCount w
  /\ urlCount (revokeAll l w) = urlCount w.
Proof.
  revert w. induction l as [|i l IH]; intros w; [repeat split|].
  cbn [revokeAll]. destruct (resultUrl i);
    match goal with |- context [revokeAll l ?w'] =>
      destruct (IH w') as (-> & -> & -> & -> & -> & -> & ->) end; repeat split.
Qed.

Lemma items_revokeAll l w : items (revokeAll l w) = items w.
Proof. apply revokeAll_fields. Qed.

Lemma items_commit w : items (commit w) = items w.
Proof. unfold commit. destruct (stale w); [apply items_revokeAll|reflexivity]. Qed.

Lemma isProcessing_commit w : isProcessing (commit w) = isProcessing w.
Proof. unfold commit. destruct (stale w); [apply revokeAll_fields|reflexivity]. Qed.

Lemma transformCalls_commit w : transformCalls (commit w) = transformCalls w.
Proof. unfold commit. destruct (stale w); [apply revokeAll_fields|reflexivity]. Qed.

Lemma stale_commit w : stale (commit w) = false.
Proof. unfold commit. destruct (stale w) eqn:E; [reflexivity|exact E]. Qed.

Lemma shown_commit w : stale w = true -> shown (commit w) = items w.
Proof. unfold commit. intros ->. apply items_revokeAll. Qed.

Lemma commit_fresh w : stale w = false -> commit w = w.
Proof. unfold commit. now intros ->. Qed.

(** ** [addFiles] *)

Lemma newItems_spec (accepted : list File) (w : Page) :
  file <$> (newItems accepted w).1 = accepted
  /\ Forall isNew (newItems accepted w).1
  /\ items (newItems accepted w).2 = items w
  /\ isProcessing (newItems accepted w).2 = isProcessing w
  /\ shown (newItems accepted w).2 = shown w
  /\ stale (newItems accepted w).2 = stale w
  /\ transformCalls (newItems accepted w).2 = transformCalls w.
Proof.
  revert w. induction accepted as [|f l IH]; intros w.
  - repeat split. constructor.
  - cbn [newItems randomUUID URL_createObjectURL].
    match goal with |- context [newItems l ?w'] =>
      specialize (IH w'); destruct (newItems l w') as [more w''] end.
    cbn [fst snd fmap list_fmap] in *.
    destruct IH as (Hf & Hn & Hi & Hp & Hs & Ht & Hc).
    repeat split; try assumption.
    + now rewrite Hf.
    + constructor; [repeat split|exact Hn].
Qed.

Lemma addFiles_items (files : list File) (w : Page) :
  items (addFiles files w)
  = (items w ++ (newItems (List.filter accepts files) w).1)%list.
Proof.
  unfold addFiles. destruct (List.filter accepts files) as [|f l] eqn:E.
  - cbn [newItems fst]. now rewrite app_nil_r.
  - destruct (newItems (f :: l) w) as [new w'] eqn:En.
    cbn [setItems items fst].
    pose proof (newItems_spec (f :: l) w) as H. rewrite En in H.
    cbn [fst snd] in H. destruct H as (_ & _ & -> & _). reflexivity.
Qed.

Lemma accepts_spec (f : File) :
  accepts f = true <->
  toLowerCase (type f) = "image/jpeg"
  \/ toLowerCase (type f) = "image/jpg"
  \/ (exists p, toLowerCase (name f) = p ++ ".jpg")
  \/ (exists p, toLowerCase (name f) = p ++ ".jpeg").
Proof.
  unfold accepts. cbv zeta.
  rewrite !orb_true_iff, !String.eqb_eq, !endsWith_spec. tauto.
Qed.

(** ** One item of the collection is updated *)

Lemma mapItem_Forall2 (P Q : ImageItem -> Prop) k f l :
  (forall i, P i -> id i = k -> Q (f i)) ->
  (forall i, P i -> id i <> k -> Q i) ->
  Forall P l -> Forall Q (mapItem k f l).
Proof.
  intros Hf Hg Hl. unfold mapItem. apply Forall_fmap.
  eapply Forall_impl; [exact Hl|]. intros i Hi. simpl.
  destruct (Nat.eqb_spec (id i) k); auto.
Qed.

Lemma mapItem_Forall (P : ImageItem -> Prop) k f l :
  (forall i, P i -> id i = k -> P (f i)) ->
  Forall P l -> Forall P (mapItem k f l).
Proof. intros Hf. apply mapItem_Forall2; auto. Qed.

Lemma mapItem_lookup k f (l : list ImageItem) n :
  mapItem k f l !! n = (fun i => if (id i =? k)%nat then f i else i) <$> l !! n.
Proof. unfold mapItem. apply list_lookup_fmap. Qed.

Lemma mapItem_lookup_other k f (l : list ImageItem) n i :
  l !! n = Some i -> id i <> k -> mapItem k f l !! n = Some i.
Proof.
  intros Hn Hk. rewrite mapItem_lookup, Hn. simpl.
  destruct (Nat.eqb_spec (id i) k); [contradiction|reflexivity].
Qed.


Lemma elem_of_id_fmap (x : ImageItem) (l : list ImageItem) :
  x ∈ l -> id x ∈ id <$> l.
Proof. intros H. apply list_elem_of_fmap. now exists x. Qed.

Lemma sameCore_refl i : sameCore i i.
Proof. repeat split. Qed.

Lemma sameCore_trans i j k : sameCore i j -> sameCore j k -> sameCore i k.
Proof.
  unfold sameCore. intros (?&?&?&?&?&?&?) (?&?&?&?&?&?&?).
  repeat split; congruence.
Qed.

Lemma mapItem_sameCore k f (l : list ImageItem) n i :
  (forall j, sameCore j (f j)) ->
  l !! n = Some i -> exists i', mapItem k f l !! n = Some i' /\ sameCore i i'.
Proof.
  intros Hf Hn. rewrite mapItem_lookup, Hn. simpl.
  destruct (id i =? k)%nat; eexists; split; eauto using sameCore_refl.
Qed.

(** ** What happens while the page awaits the transform *)

Lemma items_handle e w :
  items (handle e w) =
  match e with
  | SelectFiles files => (items w ++ (newItems (List.filter accepts files) w).1)%list
  | ClickClear => []
  | CheckKeep k checked => mapItem k (spreadKeep checked) (items w)
  end.
Proof.
  unfold handle. rewrite items_commit.
  destruct e; [apply addFiles_items|reflexivity|reflexivity].
Qed.

Lemma transformCalls_handle e w : transformCalls (handle e w) = transformCalls w.
Proof.
  unfold handle. rewrite transformCalls_commit. destruct e.
  - unfold addFiles. destruct (List.filter accepts files) as [|f l]; [reflexivity|].
    pose proof (newItems_spec (f :: l) w) as H.
    destruct (newItems (f :: l) w) as [new w']. apply H.
  - unfold clearAll. cbn [setItems transformCalls]. apply revokeAll_fields.
  - reflexivity.
Qed.

Lemma isProcessing_handle e w : isProcessing (handle e w) = isProcessing w.
Proof.
  unfold handle. rewrite isProcessing_commit. destruct e.
  - unfold addFiles. destruct (List.filter accepts files) as [|f l]; [reflexivity|].
    pose proof (newItems_spec (f :: l) w) as H.
    destruct (newItems (f :: l) w) as [new w']. apply H.
  - unfold clearAll. cbn [setItems isProcessing]. apply revokeAll_fields.
  - reflexivity.
Qed.

Lemma items_happen item h w :
  items (happen item h w) =
  match h with
  | Progress _ value total =>
      mapItem (id item) (spreadProgress (percent value total)) (items w)
  | User e => items (handle e w)
  end.
Proof. destruct h; [|reflexivity]. unfold happen. now rewrite items_commit. Qed.

Lemma transformCalls_happen item h w :
  transformCalls (happen item h w) = transformCalls w.
Proof.
  destruct h; [|apply transformCalls_handle].
  unfold happen. now rewrite transformCalls_commit.
Qed.

Lemma isProcessing_happen item h w :
  isProcessing (happen item h w) = isProcessing w.
Proof.
  destruct h; [|apply isProcessing_handle].
  unfold happen. now rewrite isProcessing_commit.
Qed.

(** A property of every item survives a happening when the two spreads
    keep it and, if files may arrive, new items have it. *)
Lemma happen_Forall (P : ImageItem -> Prop) item h w :
  (forall i p, P i -> P (spreadProgress p i)) ->
  (forall i c, P i -> P (spreadKeep c i)) ->
  (selectsFiles h = false \/ forall i, isNew i -> P i) ->
  Forall P (items w) -> Forall P (items (happen item h w)).
Proof.
  intros Hp Hk Hs Hw. rewrite items_happen.
  destruct h as [stage value total|[files| |k c]].
  - apply mapItem_Forall; auto.
  - rewrite items_handle. apply Forall_app. split; [exact Hw|].
    destruct Hs as [Hs|Hs]; [discriminate|].
    eapply Forall_impl; [apply newItems_spec|exact Hs].
  - rewrite items_handle. constructor.
  - rewrite items_handle. apply mapItem_Forall; auto.
Qed.

Lemma happen_lookup item h w n i :
  clears h = false -> items w !! n = Some i ->
  exists i', items (happen item h w) !! n = Some i' /\ sameCore i i'.
Proof.
  intros Hc Hn. rewrite items_happen.
  destruct h as [stage value total|[files| |k c]].
  - apply mapItem_sameCore; [|exact Hn]. intros j. repeat split.
  - rewrite items_handle. exists i. split; [|apply sameCore_refl].
    apply lookup_app_l_Some. exact Hn.
  - discriminate.
  - rewrite items_handle. apply mapItem_sameCore; [|exact Hn].
    intros j. repeat split.
Qed.

(** ** One iteration of the loop *)

Section SchedulerFacts.

Variable removeBackground : File -> Transform.

Lemma items_beginItem item w :
  items (beginItem item w) = mapItem (id item) spreadProcessing (items w).
Proof. unfold beginItem. now rewrite items_commit. Qed.

Lemma transformCalls_beginItem item w :
  transformCalls (beginItem item w) = (transformCalls w ++ [file item])%list.
Proof. unfold beginItem. now rewrite transformCalls_commit. Qed.

Lemma isProcessing_beginItem item w :
  isProcessing (beginItem item w) = isProcessing w.
Proof. unfold beginItem. now rewrite isProcessing_commit. Qed.

Lemma items_settleItem item o w :
  items (settleItem item o w)
  = mapItem (id item) (settleSpread o (urlCount w)) (items w).
Proof. destruct o; reflexivity. Qed.

Lemma transformCalls_settleItem item o w :
  transformCalls (settleItem item o w) = transformCalls w.
Proof. destruct o; reflexivity. Qed.

Lemma isProcessing_settleItem item o w :
  isProcessing (settleItem item o w) = isProcessing w.
Proof. destruct o; reflexivity. Qed.

Lemma during_Forall (P : ImageItem -> Prop) item hs w :
  (forall i p, P i -> P (spreadProgress p i)) ->
  (forall i c, P i -> P (spreadKeep c i)) ->
  Forall (fun h => selectsFiles h = false \/ forall i, isNew i -> P i) hs ->
  Forall P (items w) ->
  Forall P (items (fold_left (fun w h => happen item h w) hs w)).
Proof.
  intros Hp Hk Hs. revert w.
  induction Hs as [|h hs Hh _ IH]; intros w Hw; [exact Hw|].
  cbn [fold_left]. apply IH. now apply happen_Forall.
Qed.

Lemma during_lookup item hs w n i :
  Forall (fun h => clears h = false) hs -> items w !! n = Some i ->
  exists i', items (fold_left (fun w h => happen item h w) hs w) !! n = Some i'
             /\ sameCore i i'.
Proof.
  intros Hs. revert w i.
  induction Hs as [|h hs Hh _ IH]; intros w i Hn.
  - exists i. split; [exact Hn|apply sameCore_refl].
  - cbn [fold_left].
    destruct (happen_lookup item h w n i Hh Hn) as (i1 & H1 & S1).
    destruct (IH _ _ H1) as (i2 & H2 & S2).
    exists i2. split; [exact H2|]. eapply sameCore_trans; eauto.
Qed.

Lemma during_transformCalls item hs w :
  transformCalls (fold_left (fun w h => happen item h w) hs w) = transformCalls w.
Proof.
  revert w. induction hs as [|h hs IH]; intros w; [reflexivity|].
  cbn [fold_left]. now rewrite IH, transformCalls_happen.
Qed.

Lemma during_isProcessing item hs w :
  isProcessing (fold_left (fun w h => happen item h w) hs w) = isProcessing w.
Proof.
  revert w. induction hs as [|h hs IH]; intros w; [reflexivity|].
  cbn [fold_left]. now rewrite IH, isProcessing_happen.
Qed.

Lemma transformCalls_processItem item w :
  transformCalls (processItem removeBackground item w)
  = (transformCalls w ++ [file item])%list.
Proof.
  unfold processItem.
  now rewrite transformCalls_settleItem, during_transformCalls,
    transformCalls_beginItem.
Qed.

Lemma isProcessing_processItem item w :
  isProcessing (processItem removeBackground item w) = isProcessing w.
Proof.
  unfold processItem.
  now rewrite isProcessing_settleItem, during_isProcessing,
    isProcessing_beginItem.
Qed.

(** Whatever happens meanwhile, an iteration leaves no item in
    [processing] if it found none. *)
Lemma processItem_none_processing item w :
  Forall (fun i => status i <> processing) (items w) ->
  Forall (fun i => status i <> processing)
    (items (processItem removeBackground item w)).
Proof.
  intros Hw. unfold processItem. rewrite items_settleItem.
  apply mapItem_Forall2
    with (P := fun i => status i = processing -> id i = id item).
  - intros i _ _. destruct (outcome _); discriminate.
  - intros i Hi Hne Hs. auto.
  - apply during_Forall.
    + intros i p Hi. exact Hi.
    + intros i c Hi. exact Hi.
    + apply Forall_forall. intros h _. right. intros i Hi Hs.
      destruct Hi as (Hp & _). simpl in Hs. congruence.
    + rewrite items_beginItem.
      apply mapItem_Forall2 with (P := fun i => status i <> processing).
      * intros i _ Hk _. exact Hk.
      * intros i Hi _ Hs. contradiction.
      * exact Hw.
Qed.

(** With no file arriving, an iteration settles every item that carries
    the identifier of its item, and nothing else changes state. *)
Lemma processItem_owed (T : list Id) item w :
  never selectsFiles removeBackground ->
  Forall (fun i => settled i \/ id i ∈ id item :: T) (items w) ->
  Forall (fun i => settled i \/ id i ∈ T)
    (items (processItem removeBackground item w)).
Proof.
  intros Hq Hw. unfold processItem. rewrite items_settleItem.
  apply mapItem_Forall2
    with (P := fun i => settled i \/ id i ∈ id item :: T).
  - intros i _ _. left. unfold settled.
    destruct (outcome _); simpl; auto.
  - intros i [Hi|[Hi|Hi]%elem_of_cons] Hne; [now left|congruence|now right].
  - apply during_Forall.
    + intros i p Hi. exact Hi.
    + intros i c Hi. exact Hi.
    + eapply Forall_impl; [apply Hq|]. intros h Hh. now left.
    + rewrite items_beginItem. apply mapItem_Forall; [|exact Hw].
      intros i _ Hk. right. simpl. rewrite Hk. apply elem_of_cons. now left.
Qed.

(** An iteration only touches state of items that carry the identifier
    of its item: strangers to a set [S] of identifiers that contains it
    stay as [addFiles] made them. *)
Lemma processItem_strangers (S : list Id) item w :
  id item ∈ S ->
  Forall (fun i => id i ∉ S -> status i = pending) (items w) ->
  Forall (fun i => id i ∉ S -> status i = pending)
    (items (processItem removeBackground item w)).
Proof.
  intros HS Hw. unfold processItem. rewrite items_settleItem.
  apply mapItem_Forall2
    with (P := fun i => id i ∉ S -> status i = pending).
  - intros i _ Hk Hn. exfalso. apply Hn.
    destruct (outcome _); simpl; congruence.
  - auto.
  - apply during_Forall.
    + intros i p Hi. exact Hi.
    + intros i c Hi. exact Hi.
    + apply Forall_forall. intros h _. right. intros i Hi _. apply Hi.
    + rewrite items_beginItem. apply mapItem_Forall; [|exact Hw].
      intros i _ Hk Hn. exfalso. apply Hn. simpl. congruence.
Qed.

(** The item at a position, when the iteration is about another item. *)
Lemma processItem_other item w n i :
  never clears removeBackground ->
  items w !! n = Some i -> id i <> id item ->
  exists i', items (processItem removeBackground item w) !! n = Some i'
             /\ sameCore i i'.
Proof.
  intros Hq Hn Hne. unfold processItem.
  assert (H0 : items (beginItem item w) !! n = Some i).
  { rewrite items_beginItem. now apply mapItem_lookup_other. }
  destruct (during_lookup item _ _ n i (Hq (file item)) H0) as (i1 & H1 & S1).
  exists i1. split; [|exact S1].
  rewrite items_settleItem. apply mapItem_lookup_other; [exact H1|].
  destruct S1 as (-> & _). exact Hne.
Qed.


(** ** The loop *)

Lemma transformCalls_forEachItem snapshot w :
  transformCalls (forEachItem removeBackground snapshot w)
  = (transformCalls w ++ (file <$> List.filter needsWork snapshot))%list.
Proof.
  revert w. induction snapshot as [|item rest IH]; intros w.
  - simpl. now rewrite app_nil_r.
  - cbn [forEachItem List.filter]. unfold needsWork at 1.
    destruct (skips item); cbn [negb].
    + apply IH.
    + rewrite IH, transformCalls_processItem. cbn [fmap list_fmap].
      now rewrite <- app_assoc.
Qed.

Lemma isProcessing_forEachItem snapshot w :
  isProcessing (forEachItem removeBackground snapshot w) = isProcessing w.
Proof.
  revert w. induction snapshot as [|item rest IH]; intros w; [reflexivity|].
  cbn [forEachItem]. destruct (skips item); [apply IH|].
  now rewrite IH, isProcessing_processItem.
Qed.

Lemma forEachItem_none_processing snapshot w :
  Forall (fun i => status i <> processing) (items w) ->
  Forall (fun i => status i <> processing)
    (items (forEachItem removeBackground snapshot w)).
Proof.
  revert w. induction snapshot as [|item rest IH]; intros w Hw; [exact Hw|].
  cbn [forEachItem]. destruct (skips item); [now apply IH|].
  apply IH. now apply processItem_none_processing.
Qed.

Lemma forEachItem_owed snapshot w :
  never selectsFiles removeBackground ->
  Forall (fun i => settled i
                   \/ id i ∈ id <$> List.filter needsWork snapshot)
    (items w) ->
  Forall settled (items (forEachItem removeBackground snapshot w)).
Proof.
  intros Hq. revert w. induction snapshot as [|item rest IH]; intros w Hw.
  - eapply Forall_impl; [exact Hw|]. intros i [Hi|Hi]; [exact Hi|].
    now apply elem_of_nil in Hi.
  - cbn [forEachItem]. cbn [List.filter] in Hw. unfold needsWork at 1 in Hw.
    destruct (skips item); cbn [negb] in Hw.
    + now apply IH.
    + apply IH. now apply processItem_owed.
Qed.

Lemma forEachItem_strangers (S : list Id) snapshot w :
  Forall (fun item => id item ∈ S) snapshot ->
  Forall (fun i => id i ∉ S -> status i = pending) (items w) ->
  Forall (fun i => id i ∉ S -> status i = pending)
    (items (forEachItem removeBackground snapshot w)).
Proof.
  intros HS. revert w. induction HS as [|item rest Hi _ IH]; intros w Hw.
  - exact Hw.
  - cbn [forEachItem]. destruct (skips item); [now apply IH|].
    apply IH. now apply processItem_strangers.
Qed.

(** An item that no remaining iteration is about keeps its state. *)
Lemma forEachItem_frame snapshot w n i :
  never clears removeBackground ->
  Forall (fun item => skips item = false -> id item <> id i) snapshot ->
  items w !! n = Some i ->
  exists i', items (forEachItem removeBackground snapshot w) !! n = Some i'
             /\ sameCore i i'.
Proof.
  intros Hq Hs. revert w i Hs.
  induction snapshot as [|item rest IH]; intros w i Hs Hn.
  - exists i. split; [exact Hn|apply sameCore_refl].
  - apply Forall_cons in Hs as [Hitem Hrest]. cbn [forEachItem].
    destruct (skips item) eqn:E; [now apply IH|].
    destruct (processItem_other item w n i Hq Hn) as (i1 & H1 & S1).
    { intros Heq. now apply Hitem. }
    assert (Hrest' : Forall (fun item => skips item = false -> id item <> id i1) rest).
    { destruct S1 as (-> & _). exact Hrest. }
    destruct (IH _ i1 Hrest' H1) as (i2 & H2 & S2).
    exists i2. split; [exact H2|]. eapply sameCore_trans; eauto.
Qed.


End SchedulerFacts.

(** ** The whole run *)

Section RunFacts.

Variable removeBackground : File -> Transform.

Lemma forEachItem_all_skipped snapshot w :
  Forall (fun i => skips i = true) snapshot ->
  forEachItem removeBackground snapshot w = w.
Proof.
  induction 1 as [|item rest Hi _ IH]; [reflexivity|].
  cbn [forEachItem]. now rewrite Hi.
Qed.

Lemma items_processSequentially w :
  isProcessing w = false ->
  items (processSequentially removeBackground w)
  = items (forEachItem removeBackground (shown w) (setIsProcessing true w)).
Proof.
  intros Hp. unfold processSequentially. rewrite Hp.
  now rewrite items_commit.
Qed.

Lemma commit_coherent w :
  coherent w -> shown (commit w) = items (commit w).
Proof.
  intros Hc. rewrite items_commit. destruct (stale w) eqn:E.
  - now apply shown_commit.
  - rewrite commit_fresh by exact E. now apply Hc.
Qed.

Lemma forEachItem_coherent snapshot w :
  coherent w -> coherent (forEachItem removeBackground snapshot w).
Proof.
  revert w. induction snapshot as [|item rest IH]; intros w Hw; [exact Hw|].
  cbn [forEachItem]. destruct (skips item); [now apply IH|].
  apply IH. intros Hs. exfalso. revert Hs. unfold processItem.
  destruct (outcome _); discriminate.
Qed.

(** [AtRest] is what the page is between two runs: the first render has
    it, and every user action and every run keeps it. *)
Lemma AtRest_mount : AtRest mount.
Proof. repeat constructor. Qed.

Lemma AtRest_handle e w : AtRest w -> AtRest (handle e w).
Proof.
  intros [Hi Hf Hs Hn]. constructor.
  - now rewrite isProcessing_handle.
  - apply stale_commit.
  - unfold handle. apply commit_coherent. intros Hst.
    destruct e as [files| |k c]; try discriminate.
    unfold addFiles in *. destruct (List.filter accepts files); [exact Hs|].
    destruct (newItems _ w). discriminate.
  - rewrite items_handle. destruct e as [files| |k c].
    + apply Forall_app. split; [exact Hn|].
      eapply Forall_impl; [apply newItems_spec|].
      intros i (Hi' & _). congruence.
    + constructor.
    + apply mapItem_Forall; [|exact Hn]. intros i Hi' _. exact Hi'.
Qed.

Lemma AtRest_processSequentially w :
  AtRest w -> AtRest (processSequentially removeBackground w).
Proof.
  intros [Hi Hf Hs Hn]. constructor.
  - unfold processSequentially. rewrite Hi.
    now rewrite isProcessing_commit.
  - unfold processSequentially. rewrite Hi. apply stale_commit.
  - unfold processSequentially. rewrite Hi. apply commit_coherent.
    change (coherent (forEachItem removeBackground (shown w)
                        (setIsProcessing true w))).
    apply forEachItem_coherent. intros _. exact Hs.
  - rewrite items_processSequentially by exact Hi.
    now apply forEachItem_none_processing.
Qed.

End RunFacts.

(** ** Handles *)

Lemma urlCalls_revokeAll l w :
  urlCalls (revokeAll l w)
  = (urlCalls w
     ++ (l ≫= fun i => revokeObjectURL (srcUrl i)
                        :: match resultUrl i with
                           | Some u => [revokeObjectURL u]
                           | None => []
                           end))%list.
Proof.
  revert w. induction l as [|i l IH]; intros w.
  - simpl. now rewrite app_nil_r.
  - cbn [revokeAll mbind list_bind]. rewrite IH.
    destruct (resultUrl i); simpl; rewrite <- !app_assoc; reflexivity.
Qed.

(** Clearing a page at rest revokes every handle of the collection twice:
    once in [clearAll], once more in the cleanup that the render of the
    empty collection triggers. *)
Lemma clear_revokes_twice w :
  AtRest w ->
  released (urlCalls (handle ClickClear w))
  = (released (urlCalls w)
     ++ released (urlCalls (revokeAll (items w) mount))
     ++ released (urlCalls (revokeAll (items w) mount)))%list.
Proof.
  intros [_ _ Hs _]. unfold handle, clearAll, commit. cbn [setItems stale shown].
  cbn [urlCalls]. rewrite !urlCalls_revokeAll. cbn [setItems urlCalls mount].
  destruct (revokeAll_fields (shown w) w) as (_ & _ & -> & _).
  rewrite urlCalls_revokeAll, Hs. unfold released.
  rewrite !omap_app. cbn [omap list_omap app]. now rewrite <- app_assoc.
Qed.

(** * The specified properties *)

(** ** Progress *)




(** C8.  When [total] is zero the callback reports the fixed value 0,
    whatever [value] is (NaN and the infinities included).  The division
    is not evaluated: its result by zero is never a finite number. *)
Theorem percent_of_unknown_total :
  forall value : JsNum,
    percent value js_zero = js_zero
    /\ isPercentage (percent value js_zero)
    /\ forall q, js_div value js_zero <> Finite q.
Proof.
  intros value. split; [|split].
  - apply percent_not_positive. reflexivity.
  - rewrite percent_not_positive by reflexivity. split; discriminate.
  - intros q. apply js_div_zero_not_finite.
Qed.

(** ** Acquisition *)

(** C10.  [addFiles] keeps the files whose lowercased content type is
    [image/jpeg] or [image/jpg] or whose lowercased name ends in [.jpg] or
    [.jpeg]; it appends one item per kept file, in order, each pending
    with progress 0, [keepBackground] false and neither result nor error;
    the other files are dropped, and with no kept file the page is left
    exactly as it was. *)
Theorem addFiles_keeps_jpeg_only :
  forall (files : list File) (w : Page),
    (forall f, accepts f = true <->
       toLowerCase (type f) = "image/jpeg"
       \/ toLowerCase (type f) = "image/jpg"
       \/ (exists p, toLowerCase (name f) = p ++ ".jpg")
       \/ (exists p, toLowerCase (name f) = p ++ ".jpeg"))
    /\ (exists new,
          items (addFiles files w) = (items w ++ new)%list
          /\ file <$> new = List.filter accepts files
          /\ Forall isNew new)
    /\ (List.filter accepts files = [] -> addFiles files w = w).
Proof.
  intros files w. split; [exact accepts_spec|]. split.
  - exists (newItems (List.filter accepts files) w).1.
    split; [apply addFiles_items|].
    split; apply newItems_spec.
  - intros H. unfold addFiles. now rewrite H.
Qed.

(** ** Export *)

(** C5.  The Download ZIP handler adds, in collection order, for each
    item: its source name and source bytes when [keepBackground] is set;
    otherwise, when it has a result, the source name with its last
    extension replaced by [.png] and the result bytes; otherwise nothing.
    So [cat.jpg] is exported as [cat.png]. *)
Theorem downloadZip_builds_archive :
  (forall collection, downloadZip collection = buildArchive collection)
  /\ deriveOutputName "cat.jpg" = "cat.png".
Proof.
  split; [|reflexivity].
  intros collection. unfold downloadZip. now rewrite zipItems_app.
Qed.

(** ** The scheduler *)

(** C9.  A run over a collection whose items are all done changes
    nothing: the page it returns is the page it was given, so no item
    changed and the transform was not called. *)
Theorem rerun_of_done_collection_is_noop :
  forall (removeBackground : File -> Transform) (w : Page),
    AtRest w ->
    Forall (fun i => status i = done) (items w) ->
    processSequentially removeBackground w = w.
Proof.
  intros rb w [Hi Hf Hs _] Hd. unfold processSequentially. rewrite Hi.
  rewrite forEachItem_all_skipped.
  - destruct w. cbn in *. subst. reflexivity.
  - cbn [setIsProcessing shown]. rewrite Hs.
    eapply Forall_impl; [exact Hd|]. intros i Hst. unfold skips. now rewrite Hst.
Qed.

(** An instance: a second run after the three items were processed. *)
Lemma rerun_of_done_collection_is_noop_witness :
  processSequentially failsOnDog (processSequentially succeeds threePending)
  = processSequentially succeeds threePending.
Proof.
  apply rerun_of_done_collection_is_noop.
  - apply AtRest_processSequentially, AtRest_handle, AtRest_mount.
  - vm_compute. repeat constructor.
Defined.









(** C4, counterexample.  The dog is selected while the cat, the only item
    of the run's snapshot, is being processed.  When the run settles the
    dog is in the collection, still pending, and the transform was called
    for the cat alone. *)
Lemma appended_item_left_pending :
  (fun i => (name (file i), status i))
    <$> items (processSequentially dogArrivesMeanwhile onePending)
  = [("cat.jpg", done); ("Dog.JPG", pending)]
  /\ transformCalls (processSequentially dogArrivesMeanwhile onePending)
     = [catJpg].
Proof. split; reflexivity. Qed.

(** C4, as amended.  A run works on the collection as it was when the run
    started: it calls the transform exactly for the items of that snapshot
    that were neither done nor processing, in order, whatever happens
    meanwhile; an item that is in the collection when the run settles and
    was not in the snapshot is still pending (left to a later run). *)
Theorem run_processes_its_snapshot :
  forall (removeBackground : File -> Transform) (w : Page),
    AtRest w ->
    transformCalls (processSequentially removeBackground w)
    = (transformCalls w ++ (file <$> List.filter needsWork (items w)))%list
    /\ Forall (fun i => id i ∉ id <$> items w -> status i = pending)
         (items (processSequentially removeBackground w)).
Proof.
  intros rb w [Hi Hf Hs Hn]. split.
  - unfold processSequentially. rewrite Hi, transformCalls_commit.
    cbn [setIsProcessing transformCalls].
    rewrite transformCalls_forEachItem. cbn [setIsProcessing shown transformCalls].
    now rewrite Hs.
  - rewrite items_processSequentially by exact Hi. rewrite Hs.
    apply forEachItem_strangers.
    + apply Forall_forall. intros x Hx. now apply elem_of_id_fmap.
    + cbn [setIsProcessing items]. apply Forall_forall. intros x Hx Hnot.
      exfalso. apply Hnot. now apply elem_of_id_fmap.
Qed.

(** An instance: the run during which the dog arrives. *)
Lemma run_processes_its_snapshot_witness :
  transformCalls (processSequentially dogArrivesMeanwhile onePending)
  = (transformCalls onePending
     ++ (file <$> List.filter needsWork (items onePending)))%list
  /\ Forall (fun i => id i ∉ id <$> items onePending -> status i = pending)
       (items (processSequentially dogArrivesMeanwhile onePending)).
Proof.
  apply run_processes_its_snapshot.
  apply AtRest_handle, AtRest_mount.
Defined.

(** ** Handles *)

(** C2, the code at the failing input.  One file is selected, processed
    and cleared: two handles were created (0 for the source, 1 for the
    result) and six revocations were made, four of handle 0 and two of
    handle 1.  Two of them precede the click on Clear: when the run has
    settled the item is still shown with both handles, and handle 0 was
    revoked twice already. *)
Theorem lifecycle_revokes_handles_repeatedly :
  (fun i => (srcUrl i, resultUrl i))
    <$> items (processSequentially succeeds onePending) = [(0%nat, Some 1%nat)]
  /\ released (urlCalls (processSequentially succeeds onePending)) = [0%nat; 0%nat]
  /\ urlCalls lifecycle
  = [createObjectURL 0; revokeObjectURL 0; createObjectURL 1;
     revokeObjectURL 0; revokeObjectURL 0; revokeObjectURL 1;
     revokeObjectURL 0; revokeObjectURL 1]
  /\ List.length (acquired (urlCalls lifecycle)) = 2%nat
  /\ List.length (released (urlCalls lifecycle)) = 6%nat
  /\ countUrl 0 (released (urlCalls lifecycle)) = 4%nat
  /\ countUrl 1 (released (urlCalls lifecycle)) = 2%nat
  /\ items lifecycle = [].
Proof. repeat split. Qed.

(** ** Further properties *)

(** X1.  A click on Clear, on a page at rest, revokes every handle of the
    collection twice: [clearAll] revokes them, and the cleanup of the
    effect of lines 143-150 revokes them again when the empty collection
    is rendered. *)
Theorem clear_revokes_every_handle_twice :
  forall w : Page,
    AtRest w ->
    released (urlCalls (handle ClickClear w))
    = (released (urlCalls w)
       ++ released (urlCalls (revokeAll (items w) mount))
       ++ released (urlCalls (revokeAll (items w) mount)))%list
    /\ items (handle ClickClear w) = [].
Proof.
  intros w Hw. split; [now apply clear_revokes_twice|].
  now rewrite items_handle.
Qed.

(** An instance: the page after the cat was processed. *)
Lemma clear_revokes_every_handle_twice_witness :
  released (urlCalls (handle ClickClear (processSequentially succeeds onePending)))
  = (released (urlCalls (processSequentially succeeds onePending))
     ++ released (urlCalls (revokeAll
          (items (processSequentially succeeds onePending)) mount))
     ++ released (urlCalls (revokeAll
          (items (processSequentially succeeds onePending)) mount)))%list
  /\ items (handle ClickClear (processSequentially succeeds onePending)) = [].
Proof.
  apply clear_revokes_every_handle_twice.
  apply AtRest_processSequentially, AtRest_handle, AtRest_mount.
Defined.

(** X2.  Whatever the transform does and whatever the user does while a
    run is in flight, a run started on a page at rest ends on a page at
    rest: no run in flight, the render up to date, no item processing. *)
Theorem run_ends_at_rest :
  forall (removeBackground : File -> Transform) (w : Page),
    AtRest w -> AtRest (processSequentially removeBackground w).
Proof. intros rb w Hw. now apply AtRest_processSequentially. Qed.

(** An instance: the run during which the dog arrives. *)
Lemma run_ends_at_rest_witness :
  AtRest (processSequentially dogArrivesMeanwhile onePending).
Proof.
  apply run_ends_at_rest. apply AtRest_handle, AtRest_mount.
Defined.

(** X3.  [getBaseName] removes a last extension: a dot followed by a
    non-empty text without dots. *)
Theorem getBaseName_strips_extension :
  forall stem ext : string,
    ext <> "" -> dotless ext = true ->
    getBaseName (stem ++ String "." ext) = stem.
Proof. intros stem ext. apply getBaseName_extension. Qed.

(** An instance: [archive.tar.gz]. *)
Lemma getBaseName_strips_extension_witness :
  getBaseName ("archive.tar" ++ String "." "gz") = "archive.tar".
Proof.
  apply getBaseName_strips_extension; [discriminate|reflexivity].
Defined.

(** * The rest of the component: properties *)

(** ** Identifiers *)

Lemma uuidCount_commit w : uuidCount (commit w) = uuidCount w.
Proof. unfold commit. destruct (stale w); [apply revokeAll_fields|reflexivity]. Qed.

Lemma newItems_ids (accepted : list File) (w : Page) :
  id <$> (newItems accepted w).1 = seq (uuidCount w) (List.length accepted)
  /\ uuidCount (newItems accepted w).2
     = (uuidCount w + List.length accepted)%nat.
Proof.
  revert w. induction accepted as [|f l IH]; intros w.
  - simpl. split; [reflexivity|lia].
  - cbn [newItems randomUUID URL_createObjectURL].
    match goal with |- context [newItems l ?w'] =>
      specialize (IH w'); destruct (newItems l w') as [more w''] end.
    cbn [fst snd fmap list_fmap uuidCount List.length seq] in *.
    destruct IH as [-> ->]. split; [reflexivity|lia].
Qed.

Lemma uuidCount_handle e w :
  uuidCount (handle e w) =
  match e with
  | SelectFiles files =>
      (uuidCount w + List.length (List.filter accepts files))%nat
  | _ => uuidCount w
  end.
Proof.
  unfold handle. rewrite uuidCount_commit. destruct e as [files| |k c].
  - unfold addFiles. destruct (List.filter accepts files) as [|f l] eqn:E.
    + simpl. lia.
    + pose proof (newItems_ids (f :: l) w) as H.
      destruct (newItems (f :: l) w) as [new w']. apply H.
  - unfold clearAll. cbn [setItems uuidCount]. apply revokeAll_fields.
  - reflexivity.
Qed.

Lemma mapItem_ids k f (l : list ImageItem) :
  (forall i, id (f i) = id i) -> id <$> mapItem k f l = id <$> l.
Proof.
  intros Hf. unfold mapItem. rewrite <- list_fmap_compose.
  apply list_fmap_ext. intros n i _. simpl.
  destruct (id i =? k)%nat; [apply Hf|reflexivity].
Qed.

Lemma NoDup_ids_eq (l : list ImageItem) i j :
  NoDup (id <$> l) -> i ∈ l -> j ∈ l -> id i = id j -> i = j.
Proof.
  intros Hnd Hi Hj Heq.
  apply list_elem_of_lookup in Hi as [n Hn].
  apply list_elem_of_lookup in Hj as [m Hm].
  assert (n = m).
  { eapply NoDup_lookup; [exact Hnd| |]; rewrite list_lookup_fmap;
      [rewrite Hn|rewrite Hm]; simpl; [rewrite Heq|]; reflexivity. }
  subst m. congruence.
Qed.

(** What a user action makes of the identifiers: they stay distinct and
    below the number of identifiers drawn, which does not decrease. *)
Lemma handle_ids e w :
  NoDup (id <$> items w) ->
  Forall (fun i => (id i < uuidCount w)%nat) (items w) ->
  NoDup (id <$> items (handle e w))
  /\ Forall (fun i => (id i < uuidCount (handle e w))%nat) (items (handle e w))
  /\ (uuidCount w <= uuidCount (handle e w))%nat.
Proof.
  intros Hnd Hfr. rewrite items_handle, uuidCount_handle.
  destruct e as [files| |k c].
  - destruct (newItems_ids (List.filter accepts files) w) as [Hids _].
    set (new := (newItems (List.filter accepts files) w).1) in *.
    repeat split.
    + rewrite fmap_app. apply NoDup_app. repeat split.
      * exact Hnd.
      * intros x Hx Hx'. rewrite Hids in Hx'. apply elem_of_seq in Hx'.
        apply list_elem_of_fmap in Hx as (i & -> & Hi).
        rewrite Forall_forall in Hfr. specialize (Hfr i Hi). lia.
      * rewrite Hids. apply NoDup_seq.
    + apply Forall_app. split.
      * eapply Forall_impl; [exact Hfr|]. intros i Hi. simpl in Hi. lia.
      * apply Forall_forall. intros i Hi.
        apply (elem_of_id_fmap i new) in Hi. rewrite Hids in Hi.
        apply elem_of_seq in Hi. lia.
    + lia.
  - repeat split; try constructor; lia.
  - repeat split.
    + rewrite mapItem_ids; [exact Hnd|reflexivity].
    + apply mapItem_Forall; [|exact Hfr]. intros i Hi _. exact Hi.
    + lia.
Qed.

(** A property of items survives a happening when the spreads keep it
    (the progress one on the awaited item) and new items, whose
    identifiers were not drawn before, have it. *)
Lemma happen_Forall_fresh (P : ImageItem -> Prop) item h w :
  (forall i p, id i = id item -> P i -> P (spreadProgress p i)) ->
  (forall i c, P i -> P (spreadKeep c i)) ->
  (forall i, isNew i -> (uuidCount w <= id i)%nat -> P i) ->
  Forall P (items w) -> Forall P (items (happen item h w)).
Proof.
  intros Hp Hk Hs Hw. rewrite items_happen.
  destruct h as [stage value total|[files| |k c]].
  - apply mapItem_Forall; auto.
  - rewrite items_handle. apply Forall_app. split; [exact Hw|].
    destruct (newItems_ids (List.filter accepts files) w) as [Hids _].
    destruct (newItems_spec (List.filter accepts files) w) as (_ & Hnew & _).
    rewrite Forall_forall in Hnew. apply Forall_forall. intros i Hi.
    apply Hs; [now apply Hnew|].
    apply elem_of_id_fmap in Hi. rewrite Hids in Hi.
    apply elem_of_seq in Hi. lia.
  - rewrite items_handle. constructor.
  - rewrite items_handle. apply mapItem_Forall; auto.
Qed.

Lemma happen_ids item h w :
  NoDup (id <$> items w) ->
  Forall (fun i => (id i < uuidCount w)%nat) (items w) ->
  NoDup (id <$> items (happen item h w))
  /\ Forall (fun i => (id i < uuidCount (happen item h w))%nat)
       (items (happen item h w))
  /\ (uuidCount w <= uuidCount (happen item h w))%nat.
Proof.
  intros Hnd Hfr. destruct h as [stage value total|e].
  - unfold happen. rewrite items_commit, uuidCount_commit.
    cbn [onProgress setItems items uuidCount]. repeat split.
    + rewrite mapItem_ids; [exact Hnd|reflexivity].
    + apply mapItem_Forall; [|exact Hfr]. intros i Hi _. exact Hi.
    + lia.
  - now apply handle_ids.
Qed.

(** ** The state of the items *)

Lemma wellFormed_new i : isNew i -> wellFormed i.
Proof.
  intros (Hs & Hp & _ & Hu & Hb & He). unfold wellFormed. rewrite Hs. auto.
Qed.

Lemma wellFormed_spreadKeep c i : wellFormed i -> wellFormed (spreadKeep c i).
Proof. intros H. exact H. Qed.

Lemma awaiting_other k i : id i <> k -> awaiting k i <-> wellFormed i.
Proof.
  intros Hne. unfold awaiting.
  destruct (Nat.eqb_spec (id i) k); [contradiction|tauto].
Qed.

Lemma awaiting_self k i :
  id i = k ->
  awaiting k i
  <-> status i = processing /\ resultUrl i = None /\ resultBlob i = None.
Proof.
  intros He. unfold awaiting.
  destruct (Nat.eqb_spec (id i) k); [tauto|contradiction].
Qed.

Section SoundRun.

Variable removeBackground : File -> Transform.

Lemma uuidCount_beginItem item w : uuidCount (beginItem item w) = uuidCount w.
Proof. unfold beginItem. now rewrite uuidCount_commit. Qed.

Lemma uuidCount_settleItem item o w :
  uuidCount (settleItem item o w) = uuidCount w.
Proof. destruct o; reflexivity. Qed.

Lemma happen_meanwhile item rest h w :
  meanwhile (id item) rest w -> meanwhile (id item) rest (happen item h w).
Proof.
  intros (Hnd & Hfr & Hk & Hrest & Hit).
  destruct (happen_ids item h w Hnd Hfr) as (Hnd' & Hfr' & Hle).
  repeat split; try assumption.
  - lia.
  - eapply Forall_impl; [exact Hrest|]. intros s Hs. simpl in Hs. lia.
  - apply happen_Forall_fresh; [| | |exact Hit].
    + intros i p Hid [Ha Hu]. split.
      * apply awaiting_self; [exact Hid|]. now apply awaiting_self in Ha.
      * exact Hu.
    + intros i c [Ha Hu]. split; [|exact Hu].
      unfold awaiting in *. simpl.
      destruct (id i =? id item)%nat; exact Ha.
    + intros i Hnew Hge. split.
      * apply awaiting_other; [lia|]. now apply wellFormed_new.
      * intros s _ _ _. destruct Hnew as (-> & _). discriminate.
Qed.

Lemma during_meanwhile item rest hs w :
  meanwhile (id item) rest w ->
  meanwhile (id item) rest (fold_left (fun w h => happen item h w) hs w).
Proof.
  revert w. induction hs as [|h hs IH]; intros w Hw; [exact Hw|].
  cbn [fold_left]. apply IH. now apply happen_meanwhile.
Qed.

Lemma beginItem_meanwhile item rest w :
  skips item = false ->
  between (item :: rest) w -> meanwhile (id item) rest (beginItem item w).
Proof.
  intros Hsk (Hnd & Hfr & Hrest & Hit).
  apply Forall_cons in Hrest as [Hk Hrest].
  rewrite Forall_forall in Hit.
  unfold meanwhile. rewrite items_beginItem, uuidCount_beginItem.
  repeat split; try assumption.
  - rewrite mapItem_ids; [exact Hnd|reflexivity].
  - apply mapItem_Forall; [|exact Hfr]. intros i Hi _. exact Hi.
  - unfold mapItem. apply Forall_fmap, Forall_forall. intros i Hi. simpl.
    destruct (Hit i Hi) as [Hwf Hun].
    destruct (Nat.eqb_spec (id i) (id item)) as [He|Hne].
    + split.
      * apply awaiting_self; [exact He|]. simpl.
        assert (Hd : status i <> done).
        { apply (Hun item); [apply elem_of_cons; now left|exact Hsk|congruence]. }
        unfold wellFormed in Hwf.
        destruct (status i); try contradiction; tauto.
      * intros s _ _ _. discriminate.
    + split; [now apply awaiting_other|].
      intros s Hs. apply Hun. apply elem_of_cons. now right.
Qed.

Lemma settleItem_between item rest o w :
  Forall (fun s => id s <> id item) rest ->
  meanwhile (id item) rest w -> between rest (settleItem item o w).
Proof.
  intros Hne (Hnd & Hfr & Hk & Hrest & Hit).
  unfold between. rewrite items_settleItem, uuidCount_settleItem.
  repeat split; try assumption.
  - rewrite mapItem_ids; [exact Hnd|]. destruct o; reflexivity.
  - apply mapItem_Forall; [|exact Hfr]. intros i Hi _.
    destruct o; exact Hi.
  - eapply mapItem_Forall2; [| |exact Hit].
    + intros i [Ha Hu] He. apply awaiting_self in Ha; [|exact He].
      destruct Ha as (_ & Hurl & Hblob). split.
      * unfold wellFormed. destruct o; simpl; repeat split; eauto.
      * intros s Hs _ Hid. exfalso.
        rewrite Forall_forall in Hne. apply (Hne s Hs).
        destruct o; simpl in Hid; congruence.
    + intros i [Ha Hu] Hne'. split; [now apply awaiting_other in Ha|exact Hu].
Qed.

Lemma processItem_between item rest w :
  skips item = false ->
  Forall (fun s => id s <> id item) rest ->
  between (item :: rest) w ->
  between rest (processItem removeBackground item w).
Proof.
  intros Hsk Hne Hb. unfold processItem.
  apply settleItem_between; [exact Hne|].
  apply during_meanwhile. now apply beginItem_meanwhile.
Qed.

Lemma between_skip item rest w :
  between (item :: rest) w -> between rest w.
Proof.
  intros (Hnd & Hfr & Hrest & Hit). apply Forall_cons in Hrest as [_ Hrest].
  repeat split; try assumption.
  eapply Forall_impl; [exact Hit|]. intros i [Hwf Hun]. split; [exact Hwf|].
  intros s Hs. apply Hun. apply elem_of_cons. now right.
Qed.

Lemma forEachItem_between snapshot w :
  NoDup (id <$> snapshot) ->
  between snapshot w ->
  between [] (forEachItem removeBackground snapshot w).
Proof.
  revert w. induction snapshot as [|item rest IH]; intros w Hnd Hb; [exact Hb|].
  cbn [fmap list_fmap] in Hnd. apply NoDup_cons in Hnd as [Hnotin Hnd].
  cbn [forEachItem]. destruct (skips item) eqn:E.
  - apply IH; [exact Hnd|]. now apply between_skip in Hb.
  - apply IH; [exact Hnd|]. apply processItem_between; [exact E| |exact Hb].
    apply Forall_forall. intros s Hs Heq. apply Hnotin. rewrite <- Heq.
    now apply elem_of_id_fmap.
Qed.

Lemma uuidCount_processSequentially_items w :
  isProcessing w = false ->
  uuidCount (processSequentially removeBackground w)
  = uuidCount (forEachItem removeBackground (shown w) (setIsProcessing true w)).
Proof.
  intros Hp. unfold processSequentially. rewrite Hp.
  now rewrite uuidCount_commit.
Qed.

Lemma Sound_processSequentially w :
  Sound w -> Sound (processSequentially removeBackground w).
Proof.
  intros [Hrest Hnd Hfr Hwf].
  pose proof Hrest as [Hi Hst Hs Hn].
  assert (Hb : between (items w) (setIsProcessing true w)).
  { repeat split; try assumption.
    apply Forall_forall. intros i Hin. split.
    - rewrite Forall_forall in Hwf. now apply Hwf.
    - intros s Hsin Hsk Hid.
      assert (s = i) by (eapply NoDup_ids_eq; eauto). subst s.
      unfold skips in Hsk. destruct (status i); congruence. }
  apply forEachItem_between in Hb; [|exact Hnd].
  destruct Hb as (Hnd' & Hfr' & _ & Hit').
  constructor.
  - now apply AtRest_processSequentially.
  - rewrite items_processSequentially by exact Hi. now rewrite Hs.
  - rewrite items_processSequentially, uuidCount_processSequentially_items
      by exact Hi. now rewrite Hs.
  - rewrite items_processSequentially by exact Hi. rewrite Hs.
    eapply Forall_impl; [exact Hit'|]. now intros i [Hw _].
Qed.

End SoundRun.

Lemma Sound_mount : Sound mount.
Proof. repeat constructor. Qed.

Lemma Sound_handle e w : Sound w -> Sound (handle e w).
Proof.
  intros [Hrest Hnd Hfr Hwf].
  destruct (handle_ids e w Hnd Hfr) as (Hnd' & Hfr' & _).
  constructor; try assumption.
  - now apply AtRest_handle.
  - rewrite items_handle. destruct e as [files| |k c].
    + apply Forall_app. split; [exact Hwf|].
      eapply Forall_impl; [apply newItems_spec|]. apply wellFormed_new.
    + constructor.
    + apply mapItem_Forall; [|exact Hwf]. intros i Hi _. exact Hi.
Qed.

Lemma downloadImage_sound item w :
  wellFormed item -> (downloadImage item w).2 = w.
Proof.
  intros Hwf. unfold downloadImage. cbv zeta.
  destruct (keepsBackground item); [reflexivity|].
  unfold wellFormed in Hwf. destruct (status item); try contradiction.
  - now destruct Hwf as (-> & -> & _).
  - now destruct Hwf as ([u ->] & [b ->] & _).
  - now destruct Hwf as (-> & -> & _).
Qed.

Lemma Sound_clickDownloadZip w : Sound w -> Sound (clickDownloadZip w).
Proof. intros [[] ? ? ?]. repeat constructor; assumption. Qed.

Lemma reachable_sound w : Reachable w -> Sound w.
Proof.
  induction 1 as [|e w _ IH|rb w _ IH|item w _ IH Hin|w _ IH].
  - apply Sound_mount.
  - now apply Sound_handle.
  - now apply Sound_processSequentially.
  - unfold clickDownload. rewrite downloadImage_sound; [exact IH|].
    destruct IH as [[_ _ Hs _] _ _ Hwf]. rewrite Hs in Hin.
    rewrite Forall_forall in Hwf. now apply Hwf.
  - now apply Sound_clickDownloadZip.
Qed.

(** ** Further properties of the item states *)

(** X4.  On every page the component can be in between two tasks, the
    identifiers of the items are distinct and each item is in one of three
    shapes: pending, with progress 0 and neither result nor error; done,
    with a result URL, a result blob and progress 100; or in error, with a
    message and no result.  So an item has a result exactly when it is
    done, and none is left processing. *)
Theorem reachable_items_are_well_formed :
  forall w : Page,
    Reachable w ->
    NoDup (id <$> items w)
    /\ Forall (fun i =>
         status i <> processing
         /\ (is_Some (resultBlob i) <-> status i = done)
         /\ (is_Some (resultUrl i) <-> status i = done)
         /\ (status i = done -> progress i = js_hundred)
         /\ (status i = error -> is_Some (errorMessage i))
         /\ (status i = pending ->
             progress i = js_zero /\ errorMessage i = None))
       (items w).
Proof.
  intros w Hr. destruct (reachable_sound w Hr) as [_ Hnd _ Hwf].
  split; [exact Hnd|].
  eapply Forall_impl; [exact Hwf|]. intros i Hi. unfold wellFormed in Hi.
  destruct (status i) eqn:E.
  - destruct Hi as (Hu & Hb & He & Hp). rewrite Hu, Hb.
    repeat split; try discriminate; try tauto;
      intros H; try discriminate; now apply is_Some_None in H.
  - contradiction.
  - destruct Hi as (Hu & Hb & Hp).
    repeat split; try discriminate; try tauto.
  - destruct Hi as (Hu & Hb & He). rewrite Hu, Hb.
    repeat split; try discriminate; try tauto;
      intros H; try discriminate; now apply is_Some_None in H.
Qed.

(** An instance: after the run in which the dog fails. *)
Lemma reachable_items_are_well_formed_witness :
  NoDup (id <$> items (processSequentially failsOnDog threePending))
  /\ Forall (fun i =>
       status i <> processing
       /\ (is_Some (resultBlob i) <-> status i = done)
       /\ (is_Some (resultUrl i) <-> status i = done)
       /\ (status i = done -> progress i = js_hundred)
       /\ (status i = error -> is_Some (errorMessage i))
       /\ (status i = pending ->
           progress i = js_zero /\ errorMessage i = None))
     (items (processSequentially failsOnDog threePending)).
Proof.
  apply reachable_items_are_well_formed.
  apply reachable_run, reachable_handle, reachable_mount.
Defined.

(** X5.  On a reachable page the Download button of an item is enabled
    exactly when a click on it follows a link, and the click never creates
    an object URL: the fallback of line 126 is dead on such pages. *)
Theorem download_button_matches_link :
  forall (w : Page) (i : ImageItem),
    Reachable w -> i ∈ items w ->
    (downloadDisabled i = false <-> is_Some (downloadImage i w).1)
    /\ (downloadImage i w).2 = w.
Proof.
  intros w i Hr Hi. destruct (reachable_sound w Hr) as [_ _ _ Hwf].
  rewrite Forall_forall in Hwf. specialize (Hwf i Hi).
  unfold downloadDisabled, downloadImage. cbv zeta.
  destruct (keepsBackground i); cbn [orb negb fst snd].
  - split; [|reflexivity]. split; [intros _; eexists; reflexivity|reflexivity].
  - unfold wellFormed in Hwf.
    destruct (status i); try contradiction.
    + destruct Hwf as (-> & -> & _). cbn. split; [|reflexivity].
      split; [discriminate|]. intros H. now apply is_Some_None in H.
    + destruct Hwf as ([u ->] & [b ->] & _). cbn. split; [|reflexivity].
      split; [intros _; eexists; reflexivity|reflexivity].
    + destruct Hwf as (-> & -> & _). cbn. split; [|reflexivity].
      split; [discriminate|]. intros H. now apply is_Some_None in H.
Qed.

(** An instance: the cat after the run in which the dog fails. *)
Lemma download_button_matches_link_witness :
  (downloadDisabled (spreadDone 3 cutout (spreadProgress (Finite 75)
       (spreadProcessing (newItem 0 catJpg 0)))) = false
   <-> is_Some (downloadImage (spreadDone 3 cutout (spreadProgress (Finite 75)
         (spreadProcessing (newItem 0 catJpg 0))))
         (processSequentially failsOnDog threePending)).1)
  /\ (downloadImage (spreadDone 3 cutout (spreadProgress (Finite 75)
        (spreadProcessing (newItem 0 catJpg 0))))
        (processSequentially failsOnDog threePending)).2
     = processSequentially failsOnDog threePending.
Proof.
  apply download_button_matches_link.
  - apply reachable_run, reachable_handle, reachable_mount.
  - vm_compute. apply list_elem_of_here.
Defined.

(** X6.  The names of the entries of the archive are, in order, the names
    the single downloads use, for the items that have a download; this
    holds for every collection. *)
Theorem archive_names_are_download_names :
  forall (l : list ImageItem) (w : Page),
    fst <$> downloadZip l
    = omap (fun i => download <$> (downloadImage i w).1) l.
Proof.
  intros l w. unfold downloadZip. rewrite zipItems_app. cbn [app].
  unfold buildArchive. induction l as [|i l IH]; [reflexivity|].
  cbn [omap list_omap]. rewrite <- IH. clear IH.
  unfold exportEntry, downloadImage. cbv zeta.
  destruct (keepsBackground i); [reflexivity|].
  destruct (resultBlob i) as [b|]; [|reflexivity].
  unfold deriveOutputName. rewrite <- getBaseName_stripLastExtension.
  destruct (resultUrl i); reflexivity.
Qed.

(** X7.  On a reachable page the Download ZIP button is rendered exactly
    when the archive it builds has at least one entry. *)
Theorem zip_button_matches_archive :
  forall w : Page,
    Reachable w ->
    (zipShown w = true <-> downloadZip (items w) <> []).
Proof.
  intros w Hr. destruct (reachable_sound w Hr) as [[_ _ Hs _] _ _ Hwf].
  unfold zipShown, downloadZip. rewrite Hs, zipItems_app. cbn [app].
  unfold buildArchive. clear Hs Hr.
  induction Hwf as [|i l Hi _ IH]; [easy|].
  cbn [existsb omap list_omap]. rewrite orb_true_iff, IH.
  assert (He : keepsBackground i
               || match resultUrl i with Some _ => true | None => false end
               = true <-> is_Some (exportEntry i)).
  { unfold exportEntry. destruct (keepsBackground i); cbn [orb].
    - split; [intros _; eexists; reflexivity|reflexivity].
    - unfold wellFormed in Hi. destruct (status i); try contradiction.
      + destruct Hi as (-> & -> & _). split; [discriminate|].
        intros H. now apply is_Some_None in H.
      + destruct Hi as ([u ->] & [b ->] & _).
        split; [intros _; eexists; reflexivity|reflexivity].
      + destruct Hi as (-> & -> & _). split; [discriminate|].
        intros H. now apply is_Some_None in H. }
  rewrite He. destruct (exportEntry i) as [z|].
  - split; [discriminate|]. intros _. left. now exists z.
  - split; [intros [H|H]; [now apply is_Some_None in H|exact H]|now right].
Qed.

(** An instance: after the run in which the dog fails. *)
Lemma zip_button_matches_archive_witness :
  zipShown (processSequentially failsOnDog threePending) = true
  <-> downloadZip (items (processSequentially failsOnDog threePending)) <> [].
Proof.
  apply zip_button_matches_archive.
  apply reachable_run, reachable_handle, reachable_mount.
Defined.



(** ** The effect that starts runs *)

Lemma run_settled (removeBackground : File -> Transform) (w : Page) :
  AtRest w -> never selectsFiles removeBackground ->
  Forall settled (items (processSequentially removeBackground w)).
Proof.
  intros [Hi Hf Hs Hn] Hq.
  rewrite items_processSequentially by exact Hi.
  apply forEachItem_owed; [exact Hq|].
  cbn [setIsProcessing shown items]. rewrite Hs.
  apply Forall_forall. intros i Hin.
  rewrite Forall_forall in Hn. specialize (Hn i Hin).
  destruct (status i) eqn:E; [|contradiction|left; now left|left; now right].
  right. apply list_elem_of_fmap. exists i. split; [reflexivity|].
  apply list_elem_of_In, filter_In. split; [now apply list_elem_of_In|].
  unfold needsWork, skips. now rewrite E.
Qed.

Lemma settled_no_pending (l : list ImageItem) :
  Forall settled l ->
  existsb (fun i => match status i with pending => true | _ => false end) l
  = false.
Proof.
  induction 1 as [|i l [Hi|Hi] _ IH]; [reflexivity| |];
    cbn [existsb]; rewrite Hi, IH; reflexivity.
Qed.

Lemma pendingEffect_settled (removeBackground : File -> Transform) (w : Page) :
  AtRest w -> never selectsFiles removeBackground ->
  Forall (fun i => status i = pending \/ settled i) (items w) ->
  Forall settled (items (pendingEffect removeBackground w))
  /\ AtRest (pendingEffect removeBackground w).
Proof.
  intros Hw Hq Hl. unfold pendingEffect.
  destruct (pendingEffectFires w) eqn:E.
  - split; [now apply run_settled|now apply AtRest_processSequentially].
  - split; [|exact Hw]. destruct Hw as [Hi _ Hs _].
    unfold pendingEffectFires in E. rewrite Hi, Hs, andb_true_r in E.
    clear Hs Hi. induction Hl as [|i l Hi _ IH]; [constructor|].
    cbn [existsb] in E. apply orb_false_iff in E as [E1 E2].
    constructor; [|now apply IH].
    destruct Hi as [Hi|Hi]; [|exact Hi]. rewrite Hi in E1. discriminate.
Qed.

(** X9.  The effect does not loop: after a run during which no file was
    selected, started on a page at rest, its condition is false, so the
    render that closes the run starts no further run, failed items
    included. *)
Theorem effect_is_quiet_after_a_run :
  forall (removeBackground : File -> Transform) (w : Page),
    AtRest w -> never selectsFiles removeBackground ->
    pendingEffectFires (processSequentially removeBackground w) = false
    /\ pendingEffect removeBackground (processSequentially removeBackground w)
       = processSequentially removeBackground w.
Proof.
  intros rb w Hw Hq.
  assert (H : pendingEffectFires (processSequentially rb w) = false).
  { unfold pendingEffectFires.
    destruct (AtRest_processSequentially rb w Hw) as [_ _ Hs _].
    rewrite Hs, settled_no_pending; [reflexivity|]. now apply run_settled. }
  split; [exact H|]. unfold pendingEffect. now rewrite H.
Qed.

(** An instance: the run in which the dog fails. *)
Lemma effect_is_quiet_after_a_run_witness :
  pendingEffectFires (processSequentially failsOnDog threePending) = false
  /\ pendingEffect failsOnDog (processSequentially failsOnDog threePending)
     = processSequentially failsOnDog threePending.
Proof.
  apply effect_is_quiet_after_a_run.
  - apply AtRest_handle, AtRest_mount.
  - intros f. unfold failsOnDog.
    destruct (String.eqb (name f) "Dog.JPG"); repeat constructor.
Defined.

Lemma dispatch_alt (removeBackground : File -> Transform) e w :
  dispatch removeBackground e w
  = if stale (act e w) then pendingEffect removeBackground (handle e w)
    else handle e w.
Proof. unfold dispatch, handle. destruct e; reflexivity. Qed.

(** X10.  Settled pages stay settled.  On a page at rest whose items are
    all done or in error, any user action, followed by the render and by
    the run the effect may start, leads to a page at rest whose items are
    all done or in error again, provided no file is selected during that
    run: files dropped on the page are processed without a click. *)
Theorem dispatch_keeps_page_settled :
  forall (removeBackground : File -> Transform) (e : UserEvent) (w : Page),
    AtRest w -> never selectsFiles removeBackground ->
    Forall settled (items w) ->
    Forall settled (items (dispatch removeBackground e w))
    /\ AtRest (dispatch removeBackground e w).
Proof.
  intros rb e w Hw Hq Hl.
  assert (Hh : Forall (fun i => status i = pending \/ settled i)
                 (items (handle e w))).
  { rewrite items_handle. destruct e as [files| |k c].
    - apply Forall_app. split.
      + eapply Forall_impl; [exact Hl|]. now right.
      + eapply Forall_impl; [apply newItems_spec|]. intros i (Hi & _). now left.
    - constructor.
    - apply mapItem_Forall.
      + intros i Hi _. exact Hi.
      + eapply Forall_impl; [exact Hl|]. now right. }
  rewrite dispatch_alt. destruct (stale (act e w)) eqn:E.
  - apply pendingEffect_settled; [now apply AtRest_handle|exact Hq|exact Hh].
  - split; [|now apply AtRest_handle].
    destruct e as [files| |k c]; try discriminate.
    rewrite items_handle. unfold act, addFiles in E.
    destruct (List.filter accepts files) as [|f l].
    + cbn [newItems fst]. now rewrite app_nil_r.
    + destruct (newItems (f :: l) w). discriminate.
Qed.

(** An instance: three more files are dropped after the cat was done. *)
Lemma dispatch_keeps_page_settled_witness :
  Forall settled
    (items (dispatch succeeds (SelectFiles [dogJpg; notesTxt; owlJpeg])
              (processSequentially succeeds onePending)))
  /\ AtRest (dispatch succeeds (SelectFiles [dogJpg; notesTxt; owlJpeg])
              (processSequentially succeeds onePending)).
Proof.
  apply dispatch_keeps_page_settled.
  - apply AtRest_processSequentially, AtRest_handle, AtRest_mount.
  - intros f. constructor.
  - vm_compute. repeat constructor.
Defined.



(** ** Handles after a render *)

Lemma revokeAll_releases (l : list ImageItem) (w : Page) (i : ImageItem) :
  i ∈ l -> srcUrl i ∈ released (urlCalls (revokeAll l w)).
Proof.
  intros Hi. rewrite urlCalls_revokeAll. unfold released.
  rewrite omap_app. apply elem_of_app. right.
  apply list_elem_of_omap. exists (revokeObjectURL (srcUrl i)).
  split; [|reflexivity].
  apply list_elem_of_bind. exists i. split; [|exact Hi].
  apply elem_of_cons. now left.
Qed.

(** X12.  Checking the Keep background box of an item, on a page at rest,
    revokes the source URL of every item of the collection; the Download
    button of that item then follows a link to its source URL, which has
    just been revoked. *)
Theorem keep_then_download_follows_revoked_url :
  forall (w : Page) (i : ImageItem),
    AtRest w -> i ∈ items w ->
    spreadKeep true i ∈ items (handle (CheckKeep (id i) true) w)
    /\ downloadDisabled (spreadKeep true i) = false
    /\ (downloadImage (spreadKeep true i)
          (handle (CheckKeep (id i) true) w)).1
       = Some {| href := srcUrl i; download := name (file i) |}
    /\ srcUrl i ∈ released (urlCalls (handle (CheckKeep (id i) true) w))
    /\ Forall (fun j => srcUrl j
                        ∈ released (urlCalls (handle (CheckKeep (id i) true) w)))
         (items w).
Proof.
  intros w i [_ _ Hs _] Hi.
  assert (Hrel : forall j, j ∈ items w ->
            srcUrl j ∈ released (urlCalls (handle (CheckKeep (id i) true) w))).
  { intros j Hj. unfold handle, commit. cbn [setItems stale shown urlCalls].
    cbn [urlCalls]. rewrite Hs.
    apply (revokeAll_releases (items w)
             (setItems (mapItem (id i) (spreadKeep true)) w) j Hj). }
  split; [|split; [reflexivity|split; [reflexivity|split]]].
  - rewrite items_handle. unfold mapItem. apply list_elem_of_fmap.
    exists i. split; [|exact Hi]. now rewrite Nat.eqb_refl.
  - now apply Hrel.
  - apply Forall_forall. exact Hrel.
Qed.

(** An instance: the cat, right after it was selected. *)
Lemma keep_then_download_follows_revoked_url_witness :
  spreadKeep true catItem ∈ items (handle (CheckKeep (id catItem) true) onePending)
  /\ downloadDisabled (spreadKeep true catItem) = false
  /\ (downloadImage (spreadKeep true catItem)
        (handle (CheckKeep (id catItem) true) onePending)).1
     = Some {| href := srcUrl catItem; download := name (file catItem) |}
  /\ srcUrl catItem
     ∈ released (urlCalls (handle (CheckKeep (id catItem) true) onePending))
  /\ Forall (fun j => srcUrl j
                      ∈ released (urlCalls
                           (handle (CheckKeep (id catItem) true) onePending)))
       (items onePending).
Proof.
  apply keep_then_download_follows_revoked_url.
  - apply AtRest_handle, AtRest_mount.
  - vm_compute. apply list_elem_of_here.
Defined.

(** ** [addFiles] in two steps *)

Lemma newItems_setItems f (accepted : list File) (w : Page) :
  newItems accepted (setItems f w)
  = ((newItems accepted w).1, setItems f (newItems accepted w).2).
Proof.
  revert w. induction accepted as [|a l IH]; intros w; [reflexivity|].
  cbn [newItems randomUUID URL_createObjectURL].
  match goal with |- context [newItems l ?w'] =>
    change w' with (setItems f
      (URL_createObjectURL (randomUUID w).2).2) end.
  rewrite IH. cbn [randomUUID URL_createObjectURL fst snd].
  destruct (newItems l _) as [more w']. reflexivity.
Qed.

Lemma newItems_app (l1 l2 : list File) (w : Page) :
  newItems (l1 ++ l2) w
  = (((newItems l1 w).1 ++ (newItems l2 (newItems l1 w).2).1)%list,
     (newItems l2 (newItems l1 w).2).2).
Proof.
  revert w. induction l1 as [|a l IH]; intros w.
  - cbn [app newItems fst snd]. now destruct (newItems l2 w).
  - cbn [app newItems]. cbn [randomUUID URL_createObjectURL].
    rewrite IH. destruct (newItems l _) as [more w']. cbn [fst snd].
    destruct (newItems l2 w') as [more2 w'']. reflexivity.
Qed.

Lemma addFiles_accepted files w a l :
  List.filter accepts files = a :: l ->
  addFiles files w
  = setItems (fun prev => (prev ++ (newItems (a :: l) w).1)%list)
      (newItems (a :: l) w).2.
Proof.
  intros H. unfold addFiles. rewrite H.
  now destruct (newItems (a :: l) w).
Qed.

(** X13.  Adding files in two batches is adding them at once: the items,
    their identifiers and source URLs, and the whole page are the same. *)
Theorem addFiles_in_two_batches :
  forall (files1 files2 : list File) (w : Page),
    addFiles files2 (addFiles files1 w) = addFiles (files1 ++ files2) w.
Proof.
  intros files1 files2 w.
  destruct (List.filter accepts files1) as [|a1 l1] eqn:E1.
  - assert (H1 : addFiles files1 w = w) by (unfold addFiles; now rewrite E1).
    rewrite H1. unfold addFiles. now rewrite List.filter_app, E1.
  - destruct (List.filter accepts files2) as [|a2 l2] eqn:E2.
    + assert (H2 : forall w', addFiles files2 w' = w')
        by (intros w'; unfold addFiles; now rewrite E2).
      rewrite H2. unfold addFiles.
      now rewrite List.filter_app, E1, E2, app_nil_r.
    + rewrite (addFiles_accepted files1 w a1 l1 E1).
      rewrite (addFiles_accepted files2 _ a2 l2 E2).
      rewrite (addFiles_accepted (files1 ++ files2) w a1 (l1 ++ a2 :: l2))
        by (now rewrite List.filter_app, E1, E2).
      change (a1 :: (l1 ++ a2 :: l2))%list with ((a1 :: l1) ++ a2 :: l2)%list.
      rewrite (newItems_app (a1 :: l1) (a2 :: l2) w), newItems_setItems.
      cbn [fst snd]. unfold setItems. cbn [items isProcessing shown stale
        urlCalls urlCount uuidCount transformCalls].
      now rewrite app_assoc.
Qed.

(** ** More on the archive *)

(** X14.  When every item keeps its background, the archive has one entry
    per item, in order, under the source name and with the source bytes. *)
Theorem archive_of_kept_originals :
  forall l : list ImageItem,
    Forall (fun i => keepsBackground i = true) l ->
    downloadZip l = (fun i => (name (file i), fileBytes (file i))) <$> l
    /\ List.length (downloadZip l) = List.length l.
Proof.
  intros l Hl.
  assert (H : downloadZip l
              = (fun i => (name (file i), fileBytes (file i))) <$> l).
  { unfold downloadZip. rewrite zipItems_app. cbn [app]. unfold buildArchive.
    induction Hl as [|i l Hi _ IH]; [reflexivity|].
    cbn [omap list_omap fmap list_fmap]. unfold exportEntry at 1.
    rewrite Hi. cbn. now rewrite IH. }
  split; [exact H|]. rewrite H. apply length_fmap.
Qed.

(** An instance: cat and dog, both kept, neither processed. *)
Lemma archive_of_kept_originals_witness :
  downloadZip [spreadKeep true catItem; spreadKeep true (newItem 1 dogJpg 1)]
  = (fun i => (name (file i), fileBytes (file i)))
      <$> [spreadKeep true catItem; spreadKeep true (newItem 1 dogJpg 1)]
  /\ List.length (downloadZip [spreadKeep true catItem;
                               spreadKeep true (newItem 1 dogJpg 1)])
     = List.length [spreadKeep true catItem; spreadKeep true (newItem 1 dogJpg 1)].
Proof.
  apply archive_of_kept_originals. repeat constructor.
Defined.

(** ** The buttons *)

(** X15.  On a page at rest the Process again button is enabled exactly
    when a run would call the transform at least once; when it is
    disabled a run is the identity. *)
Theorem process_again_button_matches_run :
  forall (removeBackground : File -> Transform) (w : Page),
    AtRest w ->
    (processAgainDisabled w = false
     <-> transformCalls (processSequentially removeBackground w)
         <> transformCalls w)
    /\ (processAgainDisabled w = true
        -> processSequentially removeBackground w = w).
Proof.
  intros rb w Hw. pose proof Hw as [Hi Hf Hs Hn].
  assert (Hcalls : transformCalls (processSequentially rb w)
                   = (transformCalls w
                      ++ (file <$> List.filter needsWork (items w)))%list).
  { unfold processSequentially. rewrite Hi, transformCalls_commit.
    cbn [setIsProcessing transformCalls].
    rewrite transformCalls_forEachItem. cbn [setIsProcessing shown transformCalls].
    now rewrite Hs. }
  assert (Hall : forallb (fun i => match status i with done => true | _ => false end)
                   (items w) = true
                 <-> List.filter needsWork (items w) = []).
  { clear Hcalls Hs. induction Hn as [|i l Hi' _ IH]; [easy|].
    cbn [forallb List.filter]. rewrite andb_true_iff, IH.
    unfold needsWork at 2, skips.
    destruct (status i); try contradiction; cbn [negb];
      split; try discriminate; try tauto; intros [H _]; discriminate. }
  unfold processAgainDisabled. rewrite Hi, Hs. cbn [orb]. split.
  - rewrite Hcalls. split.
    + intros Hd Heq. apply not_true_iff_false in Hd. apply Hd, Hall.
      apply (f_equal List.length) in Heq.
      rewrite length_app, length_fmap in Heq.
      destruct (List.filter needsWork (items w)); [reflexivity|].
      simpl in Heq. lia.
    + intros Hne. apply not_true_iff_false. intros Hd. apply Hne.
      apply Hall in Hd. rewrite Hd. cbn. now rewrite app_nil_r.
  - intros Hd. unfold processSequentially. rewrite Hi.
    rewrite forEachItem_all_skipped.
    + destruct w. cbn in *. subst. reflexivity.
    + cbn [setIsProcessing shown]. rewrite Hs.
      apply Forall_forall. intros i Hin.
      rewrite forallb_forall in Hd. specialize (Hd i).
      unfold skips. destruct (status i); try reflexivity;
        exfalso; (assert (false = true) as Hc
          by (apply Hd; now apply list_elem_of_In)); discriminate.
Qed.

(** An instance: after the run in which the dog fails. *)
Lemma process_again_button_matches_run_witness :
  (processAgainDisabled (processSequentially failsOnDog threePending) = false
   <-> transformCalls (processSequentially succeeds
                         (processSequentially failsOnDog threePending))
       <> transformCalls (processSequentially failsOnDog threePending))
  /\ (processAgainDisabled (processSequentially failsOnDog threePending) = true
      -> processSequentially succeeds
           (processSequentially failsOnDog threePending)
         = processSequentially failsOnDog threePending).
Proof.
  apply process_again_button_matches_run.
  apply AtRest_processSequentially, AtRest_handle, AtRest_mount.
Defined.

(** X16.  On a reachable page [hasResults] holds exactly when some item
    is done. *)
Theorem hasResults_iff_some_item_done :
  forall w : Page,
    Reachable w ->
    (hasResults (items w) = true
     <-> exists i, i ∈ items w /\ status i = done).
Proof.
  intros w Hr. destruct (reachable_sound w Hr) as [_ _ _ Hwf].
  unfold hasResults. rewrite existsb_exists. split.
  - intros (i & Hi & Hu). exists i. split; [now apply list_elem_of_In|].
    rewrite Forall_forall in Hwf. apply list_elem_of_In in Hi.
    specialize (Hwf i Hi). unfold wellFormed in Hwf.
    destruct (status i); try contradiction; try reflexivity;
      destruct Hwf as (Hn & _); rewrite Hn in Hu; discriminate.
  - intros (i & Hi & Hd). exists i. split; [now apply list_elem_of_In|].
    rewrite Forall_forall in Hwf. specialize (Hwf i Hi).
    unfold wellFormed in Hwf. rewrite Hd in Hwf.
    now destruct Hwf as ([u ->] & _).
Qed.

(** An instance: after the run in which the dog fails. *)
Lemma hasResults_iff_some_item_done_witness :
  hasResults (items (processSequentially failsOnDog threePending)) = true
  <-> exists i, i ∈ items (processSequentially failsOnDog threePending)
                /\ status i = done.
Proof.
  apply hasResults_iff_some_item_done.
  apply reachable_run, reachable_handle, reachable_mount.
Defined.

(** ** More on acceptance and on percentages *)

Lemma lowerChar_idempotent (c : ascii) : lowerChar (lowerChar c) = lowerChar c.
Proof.
  destruct c as [[] [] [] [] [] [] [] []]; vm_compute; reflexivity.
Qed.

Lemma toLowerCase_idempotent (s : string) :
  toLowerCase (toLowerCase s) = toLowerCase s.
Proof.
  induction s as [|c s IH]; [reflexivity|].
  cbn [toLowerCase]. now rewrite lowerChar_idempotent, IH.
Qed.

Lemma toLowerCase_append (s t : string) :
  toLowerCase (s ++ t) = toLowerCase s ++ toLowerCase t.
Proof.
  induction s as [|c s IH]; [reflexivity|].
  rewrite append_cons. cbn [toLowerCase]. now rewrite append_cons, IH.
Qed.

(** X17.  Acceptance does not depend on the case of letters: a file is
    accepted exactly when the file with lowercased name and type is, and a
    name that ends in an extension which lowercases to [.jpg] or [.jpeg]
    is accepted whatever the content type says. *)
Theorem accepts_ignores_case :
  forall f : File,
    accepts (mkFile (toLowerCase (name f)) (toLowerCase (type f)) (fileBytes f))
    = accepts f
    /\ (forall stem ext,
          name f = stem ++ ext ->
          toLowerCase ext = ".jpg" \/ toLowerCase ext = ".jpeg" ->
          accepts f = true).
Proof.
  intros f. split.
  - unfold accepts. cbn [name type]. now rewrite !toLowerCase_idempotent.
  - intros stem ext Hn He. apply accepts_spec. right. right.
    rewrite Hn, toLowerCase_append.
    destruct He as [-> | ->]; [left|right]; now exists (toLowerCase stem).
Qed.



(** ** Handle accounting *)

Lemma released_app (a b : list UrlCall) :
  released (a ++ b) = (released a ++ released b)%list.
Proof. unfold released. apply omap_app. Qed.

Lemma acquired_app (a b : list UrlCall) :
  acquired (a ++ b) = (acquired a ++ acquired b)%list.
Proof. unfold acquired. apply omap_app. Qed.

Lemma revokeAll_trace (l : list ImageItem) (w : Page) :
  released (urlCalls (revokeAll l w)) = (released (urlCalls w) ++ handles l)%list
  /\ acquired (urlCalls (revokeAll l w)) = acquired (urlCalls w).
Proof.
  rewrite urlCalls_revokeAll, released_app, acquired_app.
  assert (H : forall l : list ImageItem,
    released (l ≫= fun i => revokeObjectURL (srcUrl i)
                :: match resultUrl i with
                   | Some u => [revokeObjectURL u]
                   | None => []
                   end) = handles l
    /\ acquired (l ≫= fun i => revokeObjectURL (srcUrl i)
                :: match resultUrl i with
                   | Some u => [revokeObjectURL u]
                   | None => []
                   end) = []).
  { clear. induction l as [|i l [IH1 IH2]]; [split; reflexivity|].
    unfold handles. cbn [mbind list_bind].
    rewrite released_app, acquired_app, IH1, IH2. unfold handlesOf.
    destruct (resultUrl i); split; reflexivity. }
  destruct (H l) as [-> ->]. now rewrite app_nil_r.
Qed.

Lemma handles_Forall (P : Url -> Prop) (l : list ImageItem) :
  Forall P (handles l) <-> Forall (fun i => Forall P (handlesOf i)) l.
Proof.
  unfold handles. induction l as [|i l IH]; cbn [mbind list_bind].
  - split; constructor.
  - rewrite Forall_app, Forall_cons, IH. reflexivity.
Qed.

Lemma bounded_le (A : Url -> Prop) n n' i :
  (n <= n')%nat -> bounded A n i -> bounded A n' i.
Proof.
  intros Hle H. unfold bounded in *.
  eapply Forall_impl; [exact H|]. intros u [Hu HA]. split; [lia|exact HA].
Qed.

Section Accounting.

Variable A : Url -> Prop.

Lemma Good_commit w : Good A w -> Good A (commit w).
Proof.
  intros [Hi Hs Hr Ha Hf]. unfold commit. destruct (stale w); [|now constructor].
  destruct (revokeAll_fields (shown w) w) as (Ei & _ & _ & _ & _ & _ & Ec).
  destruct (revokeAll_trace (shown w) w) as [Er Eq].
  constructor; cbn [items shown urlCalls urlCount]; rewrite ?Ei, ?Ec.
  - exact Hi.
  - exact Hi.
  - rewrite Er. apply Forall_app. split; [exact Hr|].
    apply handles_Forall. exact Hs.
  - now rewrite Eq.
  - exact Hf.
Qed.

Lemma Good_mapItem k f w :
  (forall i, handlesOf (f i) = handlesOf i) ->
  Good A w -> Good A (setItems (mapItem k f) w).
Proof.
  intros Hf [Hi Hs Hr Ha Hfr]. constructor; cbn [setItems items shown urlCalls urlCount];
    try assumption.
  apply mapItem_Forall; [|exact Hi]. intros i Hb _.
  unfold bounded in *. now rewrite Hf.
Qed.

Lemma Good_create w :
  Good A w ->
  Good A (URL_createObjectURL w).2
  /\ A (URL_createObjectURL w).1.
Proof.
  intros [Hi Hs Hr Ha Hfr]. split; [|apply Hfr; cbn; lia].
  constructor; cbn [URL_createObjectURL snd items shown urlCalls urlCount].
  - eapply Forall_impl; [exact Hi|]. intros i. apply bounded_le. lia.
  - eapply Forall_impl; [exact Hs|]. intros i. apply bounded_le. lia.
  - rewrite released_app. cbn. rewrite app_nil_r.
    eapply Forall_impl; [exact Hr|]. intros u [Hu HA]. split; [lia|exact HA].
  - rewrite acquired_app, Ha.
    change (acquired [createObjectURL (urlCount w)]) with [urlCount w].
    now rewrite seq_S.
  - intros u Hu. apply Hfr. lia.
Qed.

Lemma Good_newItems (accepted : list File) (w : Page) :
  Good A w ->
  Good A (newItems accepted w).2
  /\ Forall (bounded A (urlCount (newItems accepted w).2))
       (newItems accepted w).1
  /\ (urlCount w <= urlCount (newItems accepted w).2)%nat.
Proof.
  revert w. induction accepted as [|f l IH]; intros w Hw.
  - cbn. repeat split; [apply Hw..|constructor|lia].
  - cbn [newItems randomUUID].
    set (w0 := {| items := items w; isProcessing := isProcessing w;
                  shown := shown w; stale := stale w; urlCalls := urlCalls w;
                  urlCount := urlCount w; uuidCount := S (uuidCount w);
                  transformCalls := transformCalls w |}).
    assert (Hw0 : Good A w0) by (destruct Hw; now constructor).
    destruct (Good_create w0 Hw0) as [Hw1 HA1].
    change (URL_createObjectURL w0).1 with (urlCount w) in *.
    destruct (URL_createObjectURL w0) as [url w1] eqn:E1.
    assert (Hc : urlCount w1 = S (urlCount w)).
    { unfold URL_createObjectURL in E1. inversion E1. reflexivity. }
    assert (Hu : url = urlCount w).
    { unfold URL_createObjectURL in E1. inversion E1. reflexivity. }
    cbn [snd] in Hw1. specialize (IH w1 Hw1).
    destruct (newItems l w1) as [more w2]. cbn [fst snd] in *.
    destruct IH as (Hw2 & Hmore & Hle). repeat split; [apply Hw2..| |lia].
    constructor; [|exact Hmore].
    unfold bounded, handlesOf. cbn. constructor; [|constructor].
    subst url. split; [lia|exact HA1].
Qed.

Lemma Good_handle e w : Good A w -> Good A (handle e w).
Proof.
  intros Hw. unfold handle. apply Good_commit. destruct e as [files| |k c].
  - unfold addFiles. destruct (List.filter accepts files) as [|f l]; [exact Hw|].
    destruct (Good_newItems (f :: l) w Hw) as ([Hi Hs Hr Ha Hfr] & Hnew & Hle).
    destruct (newItems_spec (f :: l) w) as (_ & _ & Ei & _).
    destruct (newItems (f :: l) w) as [new w']. cbn [fst snd] in *.
    constructor; cbn [setItems items shown urlCalls urlCount]; try assumption.
    apply Forall_app. split; assumption.
  - unfold clearAll.
    destruct (revokeAll_fields (shown w) w) as (Ei & _ & Es & _ & _ & _ & Ec).
    destruct (revokeAll_trace (shown w) w) as [Er Eq].
    destruct Hw as [Hi Hs Hr Ha Hfr].
    constructor; cbn [setItems items shown urlCalls urlCount]; rewrite ?Es, ?Ec.
    + constructor.
    + exact Hs.
    + rewrite Er. apply Forall_app. split; [exact Hr|].
      apply handles_Forall. exact Hs.
    + now rewrite Eq.
    + exact Hfr.
  - now apply Good_mapItem.
Qed.

Lemma Good_beginItem item w : Good A w -> Good A (beginItem item w).
Proof.
  intros Hw. unfold beginItem. apply Good_commit.
  apply (Good_mapItem (id item) spreadProcessing) in Hw; [|reflexivity].
  destruct Hw. now constructor.
Qed.

Lemma Good_happen item h w : Good A w -> Good A (happen item h w).
Proof.
  intros Hw. destruct h as [stage value total|e]; [|now apply Good_handle].
  unfold happen, onProgress. apply Good_commit. now apply Good_mapItem.
Qed.

Lemma Good_during item hs w :
  Good A w -> Good A (fold_left (fun w h => happen item h w) hs w).
Proof.
  revert w. induction hs as [|h hs IH]; intros w Hw; [exact Hw|].
  cbn [fold_left]. apply IH. now apply Good_happen.
Qed.

Lemma Good_settleItem item o w : Good A w -> Good A (settleItem item o w).
Proof.
  intros Hw. destruct o as [b|err]; [|now apply Good_mapItem].
  unfold settleItem. destruct (Good_create w Hw) as [Hw1 HA1].
  cbn [URL_createObjectURL fst snd] in *.
  destruct Hw1 as [Hi Hs Hr Ha Hfr].
  constructor; cbn [setItems items shown urlCalls urlCount] in *; try assumption.
  apply mapItem_Forall; [|exact Hi]. intros i Hb _.
  unfold bounded, handlesOf in *. cbn.
  apply Forall_cons in Hb as [Hsrc _].
  constructor; [exact Hsrc|]. constructor; [|constructor].
  split; [lia|exact HA1].
Qed.

Variable removeBackground : File -> Transform.

Lemma Good_processItem item w :
  Good A w -> Good A (processItem removeBackground item w).
Proof.
  intros Hw. unfold processItem.
  now apply Good_settleItem, Good_during, Good_beginItem.
Qed.

Lemma Good_forEachItem snapshot w :
  Good A w -> Good A (forEachItem removeBackground snapshot w).
Proof.
  revert w. induction snapshot as [|item rest IH]; intros w Hw; [exact Hw|].
  cbn [forEachItem]. destruct (skips item); [now apply IH|].
  now apply IH, Good_processItem.
Qed.

Lemma Good_setIsProcessing b w : Good A w -> Good A (setIsProcessing b w).
Proof. intros []. now constructor. Qed.

Lemma Good_processSequentially w :
  Good A w -> Good A (processSequentially removeBackground w).
Proof.
  intros Hw. unfold processSequentially. destruct (isProcessing w); [exact Hw|].
  now apply Good_commit, Good_setIsProcessing, Good_forEachItem,
    Good_setIsProcessing.
Qed.

End Accounting.

Lemma Good_clickDownload (A : Url -> Prop) item w :
  Good A w -> Good A (clickDownload item w).
Proof.
  intros Hw. unfold clickDownload, downloadImage. cbv zeta.
  destruct (keepsBackground item); [exact Hw|].
  destruct (resultBlob item); [|exact Hw].
  destruct (resultUrl item); [exact Hw|].
  destruct (Good_create A w Hw) as [Hw1 _].
  now destruct (URL_createObjectURL w).
Qed.

Lemma Good_clickDownloadZip (A : Url -> Prop) w :
  Good A w -> Good A (clickDownloadZip w).
Proof.
  intros Hw. unfold clickDownloadZip.
  destruct (Good_create A w Hw) as [[Hi Hs Hr Ha Hfr] HA].
  cbn [URL_createObjectURL fst snd] in *.
  constructor; cbn [URL_revokeObjectURL items shown urlCalls urlCount] in *;
    try assumption.
  - rewrite released_app. apply Forall_app. split; [exact Hr|].
    change (released [revokeObjectURL (urlCount w)]) with [urlCount w].
    constructor; [split; [lia|exact HA]|constructor].
  - rewrite acquired_app.
    change (acquired [revokeObjectURL (urlCount w)]) with (@nil Url).
    now rewrite app_nil_r.
Qed.

Lemma Good_mount : Good (fun _ => True) mount.
Proof. repeat constructor. Qed.

Lemma reachable_good w : Reachable w -> Good (fun _ => True) w.
Proof.
  induction 1 as [|e w _ IH|rb w _ IH|item w _ IH _|w _ IH].
  - apply Good_mount.
  - now apply Good_handle.
  - now apply Good_processSequentially.
  - now apply Good_clickDownload.
  - now apply Good_clickDownloadZip.
Qed.

Lemma later_good (A : Url -> Prop) w w' : Later w w' -> Good A w -> Good A w'.
Proof.
  induction 1 as [w|e w w' _ IH|rb w w' _ IH|item w w' _ IH|w w' _ IH];
    intros Hw.
  - exact Hw.
  - now apply Good_handle, IH.
  - now apply Good_processSequentially, IH.
  - now apply Good_clickDownload, IH.
  - now apply Good_clickDownloadZip, IH.
Qed.

(** X19.  On a reachable page every URL that was revoked and every URL
    that an item holds is one that [URL.createObjectURL] returned to the
    page: nothing foreign is ever revoked or shown. *)
Theorem page_only_handles_created_urls :
  forall w : Page,
    Reachable w ->
    (forall u, u ∈ released (urlCalls w) -> u ∈ acquired (urlCalls w))
    /\ (forall i u, i ∈ items w -> u ∈ handlesOf i ->
          u ∈ acquired (urlCalls w)).
Proof.
  intros w Hr. destruct (reachable_good w Hr) as [Hi _ Hrel Ha _].
  rewrite Ha. split.
  - intros u Hu. rewrite Forall_forall in Hrel.
    apply elem_of_seq. destruct (Hrel u Hu). lia.
  - intros i u Hin Hu. rewrite Forall_forall in Hi. specialize (Hi i Hin).
    unfold bounded in Hi. rewrite Forall_forall in Hi.
    apply elem_of_seq. destruct (Hi u Hu). lia.
Qed.

(** An instance: after select, run and clear. *)
Lemma page_only_handles_created_urls_witness :
  (forall u, u ∈ released (urlCalls lifecycle) ->
             u ∈ acquired (urlCalls lifecycle))
  /\ (forall i u, i ∈ items lifecycle -> u ∈ handlesOf i ->
        u ∈ acquired (urlCalls lifecycle)).
Proof.
  apply page_only_handles_created_urls.
  apply reachable_handle, reachable_run, reachable_handle, reachable_mount.
Defined.

Lemma orphan_is_never_revoked_aux (u : Url) (w w' : Page) :
  orphan u w -> Later w w' ->
  u ∈ acquired (urlCalls w')
  /\ (u ∉ released (urlCalls w'))
  /\ (u ∉ handles (items w')).
Proof.
  intros Ho Hl.
  destruct (later_good _ w w' Hl Ho) as [Hi _ Hrel Ha Hfr].
  split; [|split].
  - rewrite Ha. apply elem_of_seq.
    destruct (Nat.lt_ge_cases u (urlCount w')) as [Hlt|Hge]; [lia|].
    now destruct (Hfr u Hge).
  - intros Hu. rewrite Forall_forall in Hrel. now destruct (Hrel u Hu).
  - intros Hu. apply handles_Forall in Hi. rewrite Forall_forall in Hi.
    now destruct (Hi u Hu).
Qed.

(** X20.  An orphan is for ever.  Once a URL was created, is held by no
    item, neither in the state nor in the last render, and was not
    revoked, no user action and no run will ever revoke it or attach it
    to an item. *)
Theorem orphan_is_never_revoked :
  forall (u : Url) (w w' : Page),
    orphan u w -> Later w w' ->
    u ∈ acquired (urlCalls w')
    /\ (u ∉ released (urlCalls w'))
    /\ (u ∉ handles (items w')).
Proof. intros u w w'. apply orphan_is_never_revoked_aux. Qed.

(** An instance: the URL left over when the cat was cleared while
    awaited, after the dog is selected. *)
Lemma orphan_is_never_revoked_witness :
  1%nat ∈ acquired (urlCalls (handle (SelectFiles [dogJpg])
                      (processSequentially clearedMeanwhile onePending)))
  /\ (1%nat ∉ released (urlCalls (handle (SelectFiles [dogJpg])
                         (processSequentially clearedMeanwhile onePending))))
  /\ (1%nat ∉ handles (items (handle (SelectFiles [dogJpg])
                         (processSequentially clearedMeanwhile onePending)))).
Proof.
  apply (orphan_is_never_revoked 1%nat
           (processSequentially clearedMeanwhile onePending)).
  - constructor.
    + vm_compute. constructor.
    + vm_compute. constructor.
    + change (Forall (fun u => (u < 2)%nat /\ u <> 1%nat) [0; 0; 0]%nat).
      repeat constructor; lia.
    + reflexivity.
    + change (forall u, (2 <= u)%nat -> u <> 1%nat). lia.
  - apply later_handle, later_now.
Defined.

Section Leak.

Variable removeBackground : File -> Transform.

Lemma forEachItem_app l1 l2 w :
  forEachItem removeBackground (l1 ++ l2)%list w
  = forEachItem removeBackground l2 (forEachItem removeBackground l1 w).
Proof.
  revert w. induction l1 as [|i l1 IH]; intros w; [reflexivity|].
  cbn [app forEachItem]. destruct (skips i); apply IH.
Qed.

Lemma forEachItem_between_prefix pre rest w :
  NoDup (id <$> (pre ++ rest)%list) ->
  between (pre ++ rest)%list w ->
  between rest (forEachItem removeBackground pre w).
Proof.
  revert w. induction pre as [|item pre IH]; intros w Hnd Hb; [exact Hb|].
  cbn [app fmap list_fmap] in Hnd. apply NoDup_cons in Hnd as [Hnotin Hnd].
  cbn [forEachItem]. destruct (skips item) eqn:E.
  - apply IH; [exact Hnd|]. now apply between_skip in Hb.
  - apply IH; [exact Hnd|].
    apply processItem_between; [exact E| |exact Hb].
    apply Forall_forall. intros s Hs Heq. apply Hnotin. rewrite <- Heq.
    now apply elem_of_id_fmap.
Qed.

Lemma between_start w : Sound w -> between (items w) (setIsProcessing true w).
Proof.
  intros [_ Hnd Hfr Hwf]. repeat split; try assumption.
  apply Forall_forall. intros i Hin. split.
  - rewrite Forall_forall in Hwf. now apply Hwf.
  - intros s Hsin Hsk Hid.
    assert (s = i) by (eapply NoDup_ids_eq; eauto). subst s.
    unfold skips in Hsk. destruct (status i); congruence.
Qed.

(** Once no item carries the awaited identifier, none will: identifiers
    drawn later are new. *)
Lemma during_absent item rest hs w :
  meanwhile (id item) rest w ->
  Forall (fun i => id i <> id item) (items w) ->
  Forall (fun i => id i <> id item)
    (items (fold_left (fun w h => happen item h w) hs w)).
Proof.
  revert w. induction hs as [|h hs IH]; intros w Hm Hw; [exact Hw|].
  cbn [fold_left]. apply IH; [now apply happen_meanwhile|].
  destruct Hm as (_ & _ & Hk & _).
  apply happen_Forall_fresh; [| | |exact Hw].
  - intros i p _ H. exact H.
  - intros i c H. exact H.
  - intros i _ Hge. lia.
Qed.

Lemma mapItem_absent k f (l : list ImageItem) :
  Forall (fun i => id i <> k) l -> mapItem k f l = l.
Proof.
  intros H. unfold mapItem. induction H as [|i l Hi _ IH]; [reflexivity|].
  cbn [fmap list_fmap]. fold (mapItem k f l).
  destruct (Nat.eqb_spec (id i) k); [contradiction|]. f_equal. exact IH.
Qed.

Lemma settleItem_orphan item b w :
  Good (fun _ => True) w ->
  Forall (fun i => id i <> id item) (items w) ->
  orphan (urlCount w) (settleItem item (Resolves b) w).
Proof.
  intros [Hi Hs Hr Ha _] Habs. unfold orphan.
  assert (Hb : forall i, bounded (fun _ => True) (urlCount w) i ->
                 bounded (fun x => x <> urlCount w) (S (urlCount w)) i).
  { intros i H. unfold bounded in *. eapply Forall_impl; [exact H|].
    intros u [Hu _]. split; lia. }
  constructor; cbn [settleItem URL_createObjectURL setItems items shown
                    urlCalls urlCount].
  - rewrite mapItem_absent by exact Habs.
    eapply Forall_impl; [exact Hi|]. exact Hb.
  - eapply Forall_impl; [exact Hs|]. exact Hb.
  - rewrite released_app. cbn. rewrite app_nil_r.
    eapply Forall_impl; [exact Hr|]. intros u [Hu _]. split; lia.
  - rewrite acquired_app, Ha.
    change (acquired [createObjectURL (urlCount w)]) with [urlCount w].
    now rewrite seq_S.
  - intros u Hu. lia.
Qed.

(** X21.  Clearing during a run leaks the result.  Take a reachable page
    and an item of it that a run will process; if the user clicks Clear
    while that item is awaited and the transform then resolves, the run
    creates a URL that no item holds and that is never revoked, whatever
    the user does and however many runs follow. *)
Theorem clear_during_run_leaks_result_url :
  forall (w : Page) (s : ImageItem) (b : Bytes),
    Reachable w ->
    s ∈ items w -> skips s = false ->
    User ClickClear ∈ during (removeBackground (file s)) ->
    outcome (removeBackground (file s)) = Resolves b ->
    exists u,
      forall w', Later (processSequentially removeBackground w) w' ->
        u ∈ acquired (urlCalls w')
        /\ (u ∉ released (urlCalls w'))
        /\ (u ∉ handles (items w')).
Proof.
  intros w s b Hr Hs Hsk Hclear Hout.
  pose proof (reachable_sound w Hr) as Hsound.
  pose proof (reachable_good w Hr) as Hgood.
  pose proof Hsound as [[Hi _ Hshown _] Hnd _ _].
  apply list_elem_of_split in Hs as (pre & post & Hitems).
  apply list_elem_of_split in Hclear as (hs1 & hs2 & Hduring).
  set (w0 := setIsProcessing true w).
  set (w1 := forEachItem removeBackground pre w0).
  assert (Hb1 : between (s :: post) w1).
  { apply forEachItem_between_prefix.
    - rewrite <- Hitems. exact Hnd.
    - rewrite <- Hitems. now apply between_start. }
  assert (Hg1 : Good (fun _ => True) w1)
    by (now apply Good_forEachItem, Good_setIsProcessing).
  set (w2 := happen s (User ClickClear)
               (fold_left (fun w h => happen s h w) hs1 (beginItem s w1))).
  assert (Hm2 : meanwhile (id s) post w2).
  { apply happen_meanwhile, during_meanwhile, beginItem_meanwhile; assumption. }
  assert (Hg2 : Good (fun _ => True) w2)
    by (now apply Good_happen, Good_during, Good_beginItem).
  assert (He2 : items w2 = []).
  { unfold w2. rewrite items_happen, items_handle. reflexivity. }
  set (w3 := fold_left (fun w h => happen s h w) hs2 w2).
  assert (Habs : Forall (fun i => id i <> id s) (items w3)).
  { apply (during_absent s post); [exact Hm2|]. rewrite He2. constructor. }
  assert (Hg3 : Good (fun _ => True) w3) by (now apply Good_during).
  exists (urlCount w3). intros w' Hl.
  apply (orphan_is_never_revoked_aux (urlCount w3)
           (processSequentially removeBackground w) w'); [|exact Hl].
  unfold processSequentially. rewrite Hi.
  apply Good_commit, Good_setIsProcessing.
  change (shown (setIsProcessing true w)) with (shown w).
  rewrite Hshown, Hitems, forEachItem_app. fold w0. fold w1.
  cbn [forEachItem]. rewrite Hsk. apply Good_forEachItem.
  unfold processItem. rewrite Hduring, Hout, fold_left_app.
  cbn [fold_left]. fold w2. fold w3.
  now apply settleItem_orphan.
Qed.

End Leak.

(** An instance: the cat is cleared while it is awaited. *)
Lemma clear_during_run_leaks_result_url_witness :
  exists u,
    forall w', Later (processSequentially clearedMeanwhile onePending) w' ->
      u ∈ acquired (urlCalls w')
      /\ (u ∉ released (urlCalls w'))
      /\ (u ∉ handles (items w')).
Proof.
  apply (clear_during_run_leaks_result_url clearedMeanwhile onePending
           catItem cutout).
  - apply reachable_handle, reachable_mount.
  - vm_compute. apply list_elem_of_here.
  - reflexivity.
  - vm_compute. apply list_elem_of_here.
  - reflexivity.
Defined.

(** ** What a run leaves alone *)

Lemma sameCore_sameSource i i' : sameCore i i' -> sameSource i i'.
Proof. intros (H1 & H2 & H3 & _). repeat split; assumption. Qed.

Lemma sameSource_trans i j k :
  sameSource i j -> sameSource j k -> sameSource i k.
Proof.
  unfold sameSource. intros (?&?&?) (?&?&?). repeat split; congruence.
Qed.

Lemma mapItem_sameSource k f (l : list ImageItem) n i :
  (forall j, sameSource j (f j)) ->
  l !! n = Some i -> exists i', mapItem k f l !! n = Some i' /\ sameSource i i'.
Proof.
  intros Hf Hn. rewrite mapItem_lookup, Hn. simpl.
  destruct (id i =? k)%nat; eexists; split; eauto. repeat split.
Qed.

Section Frame.

Variable removeBackground : File -> Transform.

Lemma processItem_sameSource item w n i :
  never clears removeBackground ->
  items w !! n = Some i ->
  exists i', items (processItem removeBackground item w) !! n = Some i'
             /\ sameSource i i'.
Proof.
  intros Hq Hn. unfold processItem.
  destruct (mapItem_sameSource (id item) spreadProcessing (items w) n i)
    as (i1 & H1 & S1); [intros j; repeat split|exact Hn|].
  rewrite <- items_beginItem in H1.
  destruct (during_lookup item _ _ n i1 (Hq (file item)) H1) as (i2 & H2 & S2).
  set (w2 := fold_left (fun w h => happen item h w)
               (during (removeBackground (file item))) (beginItem item w)) in *.
  destruct (mapItem_sameSource (id item)
              (settleSpread (outcome (removeBackground (file item)))
                 (urlCount w2)) (items w2) n i2) as (i3 & H3 & S3);
    [|exact H2|].
  { intros j. destruct (outcome _); repeat split. }
  rewrite <- items_settleItem in H3.
  exists i3. split; [exact H3|].
  eapply sameSource_trans; [exact S1|].
  eapply sameSource_trans; [apply sameCore_sameSource, S2|exact S3].
Qed.

Lemma forEachItem_sameSource snapshot w n i :
  never clears removeBackground ->
  items w !! n = Some i ->
  exists i', items (forEachItem removeBackground snapshot w) !! n = Some i'
             /\ sameSource i i'.
Proof.
  intros Hq. revert w i.
  induction snapshot as [|item rest IH]; intros w i Hn.
  - exists i. split; [exact Hn|repeat split].
  - cbn [forEachItem]. destruct (skips item); [now apply IH|].
    destruct (processItem_sameSource item w n i Hq Hn) as (i1 & H1 & S1).
    destruct (IH _ i1 H1) as (i2 & H2 & S2).
    exists i2. split; [exact H2|]. eapply sameSource_trans; eauto.
Qed.

(** X22.  A run during which Clear is not clicked loses no item and
    moves none: every position of the collection still holds an item with
    the same identifier, the same file and the same source URL. *)
Theorem run_keeps_the_collection :
  forall (w : Page) (n : nat) (i : ImageItem),
    AtRest w -> never clears removeBackground ->
    items w !! n = Some i ->
    exists i',
      items (processSequentially removeBackground w) !! n = Some i'
      /\ id i' = id i /\ file i' = file i /\ srcUrl i' = srcUrl i.
Proof.
  intros w n i [Hi _ _ _] Hq Hn.
  rewrite items_processSequentially by exact Hi.
  apply forEachItem_sameSource; [exact Hq|exact Hn].
Qed.

(** X23.  What is done stays done.  On a reachable page, a run during
    which Clear is not clicked leaves every done item at its position
    with its state, its result blob and its result URL: no run overwrites
    a result. *)
Theorem run_keeps_done_items :
  forall (w : Page) (n : nat) (i : ImageItem),
    Reachable w -> never clears removeBackground ->
    items w !! n = Some i -> status i = done ->
    exists i',
      items (processSequentially removeBackground w) !! n = Some i'
      /\ status i' = done
      /\ resultBlob i' = resultBlob i
      /\ resultUrl i' = resultUrl i
      /\ file i' = file i.
Proof.
  intros w n i Hr Hq Hn Hd.
  destruct (reachable_sound w Hr) as [[Hi _ Hs _] Hnd _ _].
  rewrite items_processSequentially by exact Hi. rewrite Hs.
  destruct (forEachItem_frame removeBackground (items w)
              (setIsProcessing true w) n i Hq) as (i' & H' & S').
  - apply Forall_forall. intros s Hsin Hsk Heq.
    assert (s = i).
    { eapply NoDup_ids_eq; eauto. eapply list_elem_of_lookup_2; eauto. }
    subst s. unfold skips in Hsk. rewrite Hd in Hsk. discriminate.
  - exact Hn.
  - exists i'. destruct S' as (_ & Sf & _ & Su & Sb & Sst & _).
    repeat split; try assumption. congruence.
Qed.

End Frame.

(** An instance: the dog stays at position 1 through the run. *)
Lemma run_keeps_the_collection_witness :
  exists i',
    items (processSequentially failsOnDog threePending) !! 1%nat = Some i'
    /\ id i' = id (newItem 1 dogJpg 1)
    /\ file i' = file (newItem 1 dogJpg 1)
    /\ srcUrl i' = srcUrl (newItem 1 dogJpg 1).
Proof.
  apply run_keeps_the_collection.
  - apply AtRest_handle, AtRest_mount.
  - intros f. unfold failsOnDog.
    destruct (String.eqb (name f) "Dog.JPG"); repeat constructor.
  - reflexivity.
Defined.

(** An instance: the cat, done in a first run, through a second run. *)
Lemma run_keeps_done_items_witness :
  exists i',
    items (processSequentially succeeds
             (processSequentially failsOnDog threePending)) !! 0%nat = Some i'
    /\ status i' = done
    /\ resultBlob i' = resultBlob (spreadDone 3 cutout
          (spreadProgress (Finite 75) (spreadProcessing (newItem 0 catJpg 0))))
    /\ resultUrl i' = resultUrl (spreadDone 3 cutout
          (spreadProgress (Finite 75) (spreadProcessing (newItem 0 catJpg 0))))
    /\ file i' = file (spreadDone 3 cutout
          (spreadProgress (Finite 75) (spreadProcessing (newItem 0 catJpg 0)))).
Proof.
  apply run_keeps_done_items.
  - apply reachable_run, reachable_handle, reachable_mount.
  - intros f. constructor.
  - reflexivity.
  - reflexivity.
Defined.

(** ** The Keep background box and the archive *)

(** X24.  The box selects what the archive holds for the item.  After it
    is checked for an item, the archive has an entry with the item's
    source name and source bytes; after it is unchecked for an item that
    has a result, the archive has an entry with the [.png] name and the
    result bytes. *)
Theorem keep_box_selects_archive_entry :
  forall (w : Page) (i : ImageItem),
    i ∈ items w ->
    (name (file i), fileBytes (file i))
      ∈ downloadZip (items (handle (CheckKeep (id i) true) w))
    /\ (forall b, resultBlob i = Some b ->
          (getBaseName (name (file i)) ++ ".png", b)
            ∈ downloadZip (items (handle (CheckKeep (id i) false) w))).
Proof.
  intros w i Hi.
  assert (Hin : forall c, spreadKeep c i
                          ∈ items (handle (CheckKeep (id i) c) w)).
  { intros c. rewrite items_handle. unfold mapItem. apply list_elem_of_fmap.
    exists i. split; [|exact Hi]. now rewrite Nat.eqb_refl. }
  assert (Hzip : forall l j z, j ∈ l -> exportEntry j = Some z ->
                   z ∈ downloadZip l).
  { intros l j z Hj Hz. unfold downloadZip. rewrite zipItems_app. cbn [app].
    unfold buildArchive. apply list_elem_of_omap. now exists j. }
  split.
  - apply (Hzip _ _ _ (Hin true)). reflexivity.
  - intros b Hb. apply (Hzip _ _ _ (Hin false)).
    unfold exportEntry. cbn. rewrite Hb. unfold deriveOutputName.
    now rewrite getBaseName_stripLastExtension.
Qed.

(** An instance: the cat, once processed. *)
Lemma keep_box_selects_archive_entry_witness :
  (name (file (spreadDone 1 cutout (spreadProcessing catItem))),
   fileBytes (file (spreadDone 1 cutout (spreadProcessing catItem))))
    ∈ downloadZip (items (handle
        (CheckKeep (id (spreadDone 1 cutout (spreadProcessing catItem))) true)
        (processSequentially succeeds onePending)))
  /\ (forall b,
        resultBlob (spreadDone 1 cutout (spreadProcessing catItem)) = Some b ->
        (getBaseName (name (file (spreadDone 1 cutout
            (spreadProcessing catItem)))) ++ ".png", b)
          ∈ downloadZip (items (handle
              (CheckKeep (id (spreadDone 1 cutout (spreadProcessing catItem)))
                 false)
              (processSequentially succeeds onePending)))).
Proof.
  apply keep_box_selects_archive_entry.
  vm_compute. apply list_elem_of_here.
Defined.
